(** * Pika: snapshot transfer (rsync) server and list compaction filters

    A shallow embedding of [src/rsync_server.cc] (the snapshot reader
    [ReadDumpFile], the two request handlers and [DealMessage]) and of the
    list codec and compaction filters exercised by
    [src/storage/tests/lists_filter_test.cc].

    Conventions.  [size_t] values are integers in [0, 2^64) and every
    arithmetic operation of the source on them is followed by its
    wrap-around, written [to_size_t].  [ssize_t] values are plain integers.
    Character buffers are lists of bytes, [std::string] names are strings.
    Out-parameters ([data], [bytes_read], [checksum]) are returned next to
    the [Status]. *)

From Stdlib Require Import ZArith String Ascii List Lia Sorted.
From Stdlib Require Import Strings.Byte.
From stdpp Require Import base option list gmap strings.

Local Open Scope Z_scope.

(** ** Machine integers *)

Definition to_size_t (z : Z) : Z := z mod 2 ^ 64.

Definition is_size_t (z : Z) : Prop := 0 <= z < 2 ^ 64.

(** ** pstd::Status *)

Inductive Status : Type :=
| OK
| IOError (msg : string)
| NotFound (msg : string).

Definition ok (s : Status) : bool :=
  match s with OK => true | _ => false end.

Definition is_io_error (s : Status) : bool :=
  match s with IOError _ => true | _ => false end.

(** ** pstd::MD5

    The digest itself is computed by [pstd_hash.h], which is not part of the
    sources at hand.  A context is represented by the bytes fed to it so far
    and the hex digest stays symbolic: [Md5Hex bs] stands for the 32
    hexadecimal characters of the MD5 digest of [bs].  [NoChecksum] is the
    empty string the handler passes in. *)

Module MD5.

Definition t : Type := list byte.

Definition init : t := [].

Definition update (ctx : t) (block : list byte) : t := ctx ++ block.

End MD5.

Inductive checksum_t : Type :=
| NoChecksum
| Md5Hex (input : list byte).

Definition checksum_empty (c : checksum_t) : bool :=
  match c with NoChecksum => true | Md5Hex _ => false end.

(** ** Files of the snapshot directory

    A file is its content together with the places where the operating
    system reports a failure: [pread_fails off] tells that a positioned read
    at offset [off] returns -1 (this covers every reason of the system call,
    among them an offset that does not fit [off_t]), [read_fails pos] tells
    the same of a sequential read at file position [pos].  Reads of regular
    files are otherwise complete: they deliver the requested bytes or what
    is left before the end of the file. *)

Record File : Type := {
  content : list byte;
  pread_fails : Z -> bool;
  read_fails : Z -> bool
}.

Definition plain_file (bs : list byte) : File :=
  {| content := bs; pread_fails := fun _ => false; read_fails := fun _ => false |}.

(** [pread(fd, buf, n, off)]: the result and the bytes stored at [buf]. *)
Definition pread (f : File) (n off : Z) : Z * list byte :=
  if pread_fails f off then (-1, [])
  else
    let bs := take (Z.to_nat n) (drop (Z.to_nat off) (content f)) in
    (Z.of_nat (length bs), bs).

(** [read(fd, buf, n)] with the file position at [pos]. *)
Definition read (f : File) (pos n : Z) : Z * list byte :=
  if read_fails f pos then (-1, [])
  else
    let bs := take (Z.to_nat n) (drop (Z.to_nat pos) (content f)) in
    (Z.of_nat (length bs), bs).

(** ** ReadDumpFile *)

Module Reader.

Definition kMaxCopyBlockSize : Z := Z.shiftl 1 20.

(** The variables of the first loop.  [buffer] holds what has been stored
    from the caller's [data] pointer on; the pointer itself is
    [buffer + (bytes_read - initial bytes_read)]. *)
Record vars : Type := {
  buffer : list byte;
  bytes_read : Z;
  read_offset : Z;
  read_count : Z;
  left_read_count : Z
}.

(** [left_read_count -= bytesin] on a [size_t]. *)
Definition sub_left (left bytesin : Z) : Z := to_size_t (left - bytesin).

(** The test [left_read_count < 0] of line 43, on the [size_t] value that
    the subtraction has left. *)
Definition break_guard (left : Z) : bool := left <? 0.

(** One evaluation of the loop condition and, when it holds, of the body.
    [inl] is a further iteration, [inr] leaves the loop with the last value
    of [bytesin]. *)
Definition pread_step (f : File) (s : vars) : vars + Z * vars :=
  let '(bytesin, bs) := pread f (read_count s) (read_offset s) in
  let stored := buffer s ++ bs in
  if 0 <? bytesin then
    let left := sub_left (left_read_count s) bytesin in
    if break_guard left then
      inr (bytesin,
           {| buffer := stored; bytes_read := bytes_read s;
              read_offset := read_offset s; read_count := read_count s;
              left_read_count := left |})
    else
      let rc := if left <? read_count s then left else read_count s in
      inl {| buffer := stored;
             bytes_read := to_size_t (bytes_read s + bytesin);
             read_offset := to_size_t (read_offset s + bytesin);
             read_count := rc;
             left_read_count := left |}
  else inr (bytesin, s).

(** The bounds the loop keeps: it never asks for more than what is left. *)
Definition bounded (s : vars) : Prop :=
  0 <= read_count s <= left_read_count s /\ left_read_count s < 2 ^ 64.

(** [while ((bytesin = pread(...)) > 0) { ... }], [None] when the fuel runs
    out before the loop ends. *)
Fixpoint pread_loop (fuel : nat) (f : File) (s : vars) : option (Z * vars) :=
  match fuel with
  | O => None
  | S fuel' =>
      match pread_step f s with
      | inl s' => pread_loop fuel' f s'
      | inr r => Some r
      end
  end.

(** The second pass, [while ((bytesin = read(fd, buffer, kMaxCopyBlockSize)) > 0)]:
    the descriptor was only used by [pread] so far, its position is [pos]. *)
Fixpoint md5_loop (fuel : nat) (f : File) (pos : Z) (md5 : MD5.t)
  : option (Z * MD5.t) :=
  match fuel with
  | O => None
  | S fuel' =>
      let '(bytesin, bs) := read f pos kMaxCopyBlockSize in
      if 0 <? bytesin then md5_loop fuel' f (pos + bytesin) (MD5.update md5 bs)
      else Some (bytesin, md5)
  end.

(** The out-parameters of [ReadDumpFile]. *)
Record outs : Type := {
  data : list byte;
  nread : Z;
  checksum : checksum_t
}.

(** What the handler passes: an empty buffer, [bytes_read{0}] and the empty
    checksum. *)
Definition fresh_outs : outs :=
  {| data := []; nread := 0; checksum := NoChecksum |}.

(** The variables as the first loop finds them. *)
Definition start (offset count : Z) (o : outs) : vars :=
  {| buffer := data o; bytes_read := nread o; read_offset := offset;
     read_count := if kMaxCopyBlockSize <? count then kMaxCopyBlockSize else count;
     left_read_count := count |}.

Definition unable_to_read (filepath : string) : Status :=
  IOError ("unable to read from " +:+ filepath).

(** Lines 24-76: [ReadDumpFile(filepath, offset, count, data, bytes_read,
    checksum)] on the files [fs], where a file that is not there stands for
    an [open] that fails; [o] holds the out-parameters as the caller passes
    them.
    The first loop stops after at most [count + 1] calls of [pread], the
    second after at most one [read] per byte of the file and a last one
    (lemmas [pread_loop_total] and [md5_loop_total]), which is the fuel
    given here. *)
Definition ReadDumpFile (fs : gmap string File) (filepath : string)
    (offset count : Z) (o : outs) : option (Status * outs) :=
  match fs !! filepath with
  | None => Some (IOError "fd open failed", o)
  | Some f =>
      match pread_loop (S (Z.to_nat count)) f (start offset count o) with
      | None => None
      | Some (bytesin, s) =>
          let o1 := {| data := buffer s; nread := bytes_read s;
                       checksum := checksum o |} in
          if bytesin =? -1 then Some (unable_to_read filepath, o1)
          else if bytesin =? 0 then
            match md5_loop (S (length (content f))) f 0 MD5.init with
            | None => None
            | Some (bytesin', md5) =>
                if bytesin' =? -1 then Some (unable_to_read filepath, o1)
                else Some (OK, {| data := buffer s; nread := bytes_read s;
                                  checksum := Md5Hex md5 |})
            end
          else Some (OK, o1)
      end
  end.

(** The states in which the first loop calls [pread], from a given state on:
    the loop goes on exactly as long as [pread_step] says so. *)
Inductive reaches (f : File) : vars -> vars -> Prop :=
| reaches_here s : reaches f s s
| reaches_next s s1 s2 :
    pread_step f s = inl s1 -> reaches f s1 s2 -> reaches f s s2.

(** The file positions at which the second loop calls [read]. *)
Inductive read_reaches (f : File) : Z -> Z -> Prop :=
| read_reaches_here pos : read_reaches f pos pos
| read_reaches_next pos pos' :
    0 < fst (read f pos kMaxCopyBlockSize) ->
    read_reaches f (pos + fst (read f pos kMaxCopyBlockSize)) pos' ->
    read_reaches f pos pos'.

(** A call of [pread] made by the first loop returns [r]. *)
Definition pread_returns (f : File) (offset count : Z) (o : outs) (r : Z) : Prop :=
  exists s, reaches f (start offset count o) s /\
            fst (pread f (read_count s) (read_offset s)) = r.

(** A call of [read] made by the second loop returns [r]; the second loop is
    entered when the first one ends on a [pread] that returns 0. *)
Definition read_returns (f : File) (offset count : Z) (o : outs) (r : Z) : Prop :=
  pread_returns f offset count o 0 /\
  exists pos, read_reaches f 0 pos /\ fst (read f pos kMaxCopyBlockSize) = r.

(** The run of [ReadDumpFile] meets a failure of [open], [pread] or [read]. *)
Definition io_failure (fs : gmap string File) (filepath : string)
    (offset count : Z) (o : outs) : Prop :=
  match fs !! filepath with
  | None => True
  | Some f => pread_returns f offset count o (-1) \/ read_returns f offset count o (-1)
  end.

(** The bookkeeping of the first loop for a request of [count] bytes into an
    empty buffer: what was read and what is left add up to [count]. *)
Definition counts (count : Z) (s : vars) : Prop :=
  bounded s /\
  read_count s = Z.min kMaxCopyBlockSize (left_read_count s) /\
  0 <= bytes_read s /\
  bytes_read s + left_read_count s = count /\
  Z.of_nat (length (buffer s)) = bytes_read s.

End Reader.

(** ** Messages of the rsync service

    The protobuf schema is not part of the sources at hand; the messages are
    records with the fields the handlers read and write.  [kOtherType n] is
    any value of the request's type besides the two the switch of
    [DealMessage] names. *)

Inductive RsyncType : Type :=
| kRsyncMeta
| kRsyncFile
| kOtherType (n : Z).

Inductive StatusCode : Type :=
| kOk
| kErr.

Record FileRequest : Type := {
  req_filename : string;
  req_offset : Z;
  req_count : Z
}.

Record RsyncRequest : Type := {
  req_type : RsyncType;
  req_db_name : string;
  req_slot_id : Z;
  file_req : FileRequest
}.

Record FileResponse : Type := {
  resp_data : list byte;
  resp_eof : bool;
  resp_checksum : checksum_t;
  resp_filename : string;
  resp_count : Z;
  resp_offset : Z
}.

Record RsyncResponse : Type := {
  code : StatusCode;
  type : RsyncType;
  db_name : string;
  slot_id : Z;
  snapshot_uuid : string;
  meta_resp : option (list string);
  file_resp : option FileResponse
}.

Definition set_code (c : StatusCode) (r : RsyncResponse) : RsyncResponse :=
  {| code := c; type := type r; db_name := db_name r; slot_id := slot_id r;
     snapshot_uuid := snapshot_uuid r; meta_resp := meta_resp r;
     file_resp := file_resp r |}.

Definition set_snapshot_uuid (u : string) (r : RsyncResponse) : RsyncResponse :=
  {| code := code r; type := type r; db_name := db_name r; slot_id := slot_id r;
     snapshot_uuid := u; meta_resp := meta_resp r; file_resp := file_resp r |}.

Definition set_meta_resp (fns : list string) (r : RsyncResponse) : RsyncResponse :=
  {| code := code r; type := type r; db_name := db_name r; slot_id := slot_id r;
     snapshot_uuid := snapshot_uuid r; meta_resp := Some fns;
     file_resp := file_resp r |}.

Definition set_file_resp (fr : FileResponse) (r : RsyncResponse) : RsyncResponse :=
  {| code := code r; type := type r; db_name := db_name r; slot_id := slot_id r;
     snapshot_uuid := snapshot_uuid r; meta_resp := meta_resp r;
     file_resp := Some fr |}.

(** ** The collaborators of the server

    [g_pika_server] is seen through the three calls the handlers make.  The
    partition registry is a finite map; [GetDumpUUID] and [GetDumpMeta]
    belong to the background-save coordinator and are taken as they are.
    [alloc_ok n] tells whether the heap of the process serves [new char[n]];
    when it does not, [std::bad_alloc] is thrown. *)

Record Slot : Type := {
  IsBgSaving : bool;
  bgsave_path : string
}.

Record PikaServer : Type := {
  slots : gmap (string * Z) Slot;
  GetDumpUUID : string -> Z -> Status * string;
  GetDumpMeta : string -> Z -> list string * string;
  disk : gmap string File;
  alloc_ok : Z -> bool
}.

Definition GetDBSlotById (srv : PikaServer) (db : string) (id : Z) : option Slot :=
  slots srv !! (db, id).

(** The connection as the handlers see it: [write_ok] tells whether
    serialising and [WriteResp] succeed, [frames] are the responses written
    so far, [closing] is set by [NotifyClose].  [NotifyWrite] only wakes the
    I/O thread and leaves no trace here. *)
Record PbConn : Type := {
  write_ok : bool;
  frames : list RsyncResponse;
  closing : bool
}.

Definition RsyncWriteResp (response : RsyncResponse) (conn : PbConn) : PbConn :=
  if write_ok conn then
    {| write_ok := write_ok conn; frames := frames conn ++ [response];
       closing := closing conn |}
  else
    {| write_ok := write_ok conn; frames := frames conn; closing := true |}.

(** ** The handlers *)

(** Lines 156-190. *)
Definition HandleMetaRsyncRequest (srv : PikaServer) (req : RsyncRequest)
    (conn : PbConn) : PbConn :=
  let db := req_db_name req in
  let id := req_slot_id req in
  let waiting :=
    match GetDBSlotById srv db id with
    | None => true
    | Some slot => IsBgSaving slot
    end in
  if waiting then conn
  else
    let response :=
      {| code := kOk; type := kRsyncMeta; db_name := db; slot_id := id;
         snapshot_uuid := ""; meta_resp := None; file_resp := None |} in
    let '(filenames, uuid) := GetDumpMeta srv db id in
    let response := set_snapshot_uuid uuid response in
    let response := set_meta_resp filenames response in
    RsyncWriteResp response conn.

(** [new char[count + 1]] of line 228: the size is computed on [size_t]. *)
Definition buffer_size (count : Z) : Z := to_size_t (count + 1).

(** How a run of [HandleFileRsyncRequest] ends, each time with the state the
    connection has reached: it returns; or it dereferences the null [slot]
    (line 227, undefined behaviour); or the allocation of line 228 throws
    [std::bad_alloc], which the handler does not catch; or the reader stores
    more bytes than the buffer has (undefined behaviour).  [OutOfFuel] stands for a
    reader that does not return; lemma [HandleFileRsyncRequest_total] shows
    that there is none. *)
Inductive outcome : Type :=
| Returns (conn : PbConn)
| NullSlotDeref (conn : PbConn)
| OutOfFuel
| BadAlloc (conn : PbConn)
| BufferOverrun (conn : PbConn).

(** Lines 192-249.  The buffer of [buffer_size count] bytes is the empty
    buffer of [fresh_outs]: it is allocated before the reader is called, and
    what the reader stores has to fit into it. *)
Definition HandleFileRsyncRequest (srv : PikaServer) (req : RsyncRequest)
    (conn : PbConn) : outcome :=
  let id := req_slot_id req in
  let db := req_db_name req in
  let filename := req_filename (file_req req) in
  let offset := req_offset (file_req req) in
  let count := req_count (file_req req) in
  let response :=
    {| code := kOk; type := kRsyncFile; db_name := db; slot_id := id;
       snapshot_uuid := ""; meta_resp := None; file_resp := None |} in
  let '(s, uuid) := GetDumpUUID srv db id in
  let response := set_snapshot_uuid uuid response in
  if negb (ok s) then Returns (RsyncWriteResp (set_code kErr response) conn)
  else
    match GetDBSlotById srv db id with
    | None =>
        (* the response is written and control falls through to
           [slot->bgsave_info()] *)
        NullSlotDeref (RsyncWriteResp (set_code kErr response) conn)
    | Some slot =>
        let filepath := bgsave_path slot +:+ "/" +:+ filename in
        if negb (alloc_ok srv (buffer_size count)) then BadAlloc conn
        else
        match Reader.ReadDumpFile (disk srv) filepath offset count
                Reader.fresh_outs with
        | None => OutOfFuel
        | Some (s, o) =>
            if buffer_size count <? Z.of_nat (length (Reader.data o)) then
              BufferOverrun conn
            else if negb (ok s) then
              Returns (RsyncWriteResp (set_code kErr response) conn)
            else
              let fr :=
                {| resp_data := take (Z.to_nat (Reader.nread o)) (Reader.data o);
                   resp_eof := negb (Reader.nread o =? count);
                   resp_checksum := Reader.checksum o;
                   resp_filename := filename;
                   resp_count := Reader.nread o;
                   resp_offset := offset |} in
              Returns (RsyncWriteResp (set_file_resp fr response) conn)
        end
    end.

(** ** DealMessage

    [parsed] is the result of [ParseFromArray] on the frame.  A task is the
    handler scheduled on the worker pool with its argument. *)

Inductive Task : Type :=
| MetaTask (req : RsyncRequest)
| FileTask (req : RsyncRequest).

Record ServerConn : Type := {
  work_queue : list Task;
  pb_conn : PbConn
}.

Definition Schedule (t : Task) (c : ServerConn) : ServerConn :=
  {| work_queue := work_queue c ++ [t]; pb_conn := pb_conn c |}.

Definition DealMessage (parsed : option RsyncRequest) (c : ServerConn)
  : Z * ServerConn :=
  match parsed with
  | None => (-1, c)
  | Some req =>
      match req_type req with
      | kRsyncMeta => (0, Schedule (MetaTask req) c)
      | kRsyncFile => (0, Schedule (FileTask req) c)
      | kOtherType _ => (0, c)
      end
  end.

(** A worker takes a task and runs its handler on the connection. *)
Definition run_task (srv : PikaServer) (t : Task) (conn : PbConn) : outcome :=
  match t with
  | MetaTask req => Returns (HandleMetaRsyncRequest srv req conn)
  | FileTask req => HandleFileRsyncRequest srv req conn
  end.

(** The response of [HandleFileRsyncRequest] before the file part is
    filled in, and the one it sends on an error. *)
Definition file_response (req : RsyncRequest) (uuid : string) : RsyncResponse :=
  {| code := kOk; type := kRsyncFile; db_name := req_db_name req;
     slot_id := req_slot_id req; snapshot_uuid := uuid; meta_resp := None;
     file_resp := None |}.

Definition err_response (req : RsyncRequest) (uuid : string) : RsyncResponse :=
  set_code kErr (file_response req uuid).

(** The path the handler reads for a request on a slot. *)
Definition dump_path (slot : Slot) (req : RsyncRequest) : string :=
  bgsave_path slot +:+ "/" +:+ req_filename (file_req req).

(** ** The snapshot of scenario S7

    One partition, ["db0"] slot 0, whose snapshot directory holds
    ["00001.sst"], a file of 2.5 MiB. *)

Definition MiB : Z := 1048576.

Definition sst_00001 : list byte := replicate (Z.to_nat 2621440) "000"%byte.

(** A heap that serves requests of up to 4 GiB. *)
Definition heap_4GiB (n : Z) : bool := n <=? 2 ^ 32.

Definition s7_slot : Slot := {| IsBgSaving := false; bgsave_path := "dump" |}.

Definition s7_server : PikaServer :=
  {| slots := {[ ("db0"%string, 0) := s7_slot ]};
     GetDumpUUID := fun _ _ => (OK, "uuid-1"%string);
     GetDumpMeta := fun _ _ => (["00001.sst"%string], "uuid-1"%string);
     disk := {[ "dump/00001.sst"%string := plain_file sst_00001 ]};
     alloc_ok := heap_4GiB |}.

Definition s7_request (offset count : Z) : RsyncRequest :=
  {| req_type := kRsyncFile; req_db_name := "db0"; req_slot_id := 0;
     file_req := {| req_filename := "00001.sst"; req_offset := offset;
                    req_count := count |} |}.

Definition idle_conn : PbConn :=
  {| write_ok := true; frames := []; closing := false |}.

(** A server without partitions whose coordinator still knows a snapshot
    UUID, and a meta request to it. *)
Definition no_slot_server : PikaServer :=
  {| slots := ∅;
     GetDumpUUID := fun _ _ => (OK, "uuid-1"%string);
     GetDumpMeta := fun _ _ => ([], "uuid-1"%string);
     disk := ∅;
     alloc_ok := heap_4GiB |}.

Definition meta_request : RsyncRequest :=
  {| req_type := kRsyncMeta; req_db_name := "db0"; req_slot_id := 0;
     file_req := {| req_filename := ""; req_offset := 0; req_count := 0 |} |}.

(** A file of three bytes whose second positioned read, at offset 3, fails. *)
Definition flaky_file : File :=
  {| content := ["a"; "b"; "c"]%byte;
     pread_fails := fun off => off =? 3;
     read_fails := fun _ => false |}.

Definition flaky_server : PikaServer :=
  {| slots := {[ ("db0"%string, 0) := s7_slot ]};
     GetDumpUUID := fun _ _ => (OK, "uuid-1"%string);
     GetDumpMeta := fun _ _ => (["00001.sst"%string], "uuid-1"%string);
     disk := {[ "dump/00001.sst"%string := flaky_file ]};
     alloc_ok := heap_4GiB |}.

(** A snapshot file of five bytes that reads without failure, on a server
    with the partition ["db0"], 0. *)
Definition five_bytes : list byte := ["a"; "b"; "c"; "d"; "e"]%byte.

Definition small_server : PikaServer :=
  {| slots := {[ ("db0"%string, 0) := s7_slot ]};
     GetDumpUUID := fun _ _ => (OK, "uuid-1"%string);
     GetDumpMeta := fun _ _ => (["00001.sst"%string], "uuid-1"%string);
     disk := {[ "dump/00001.sst"%string := plain_file five_bytes ]};
     alloc_ok := heap_4GiB |}.




(** ** RsyncServer::Start

    Lines 102-114.  [thread_res] is what [StartThread] returns and
    [pool_res] what [start_thread_pool] returns when it is called;
    [kSuccess] and [kCreateThreadError] are the constants of [net].
    [LOG(FATAL)] writes its message and ends the process: the message is
    kept as the text, the code and the text after the code. *)
Inductive start_result : Type :=
| StartReturns (res : Z)
| StartFatal (text : string) (res : Z) (tail : string).

Definition RsyncServer_Start (kSuccess kCreateThreadError : Z)
    (thread_res pool_res : Z) : start_result :=
  let res := thread_res in
  if negb (res =? kSuccess) then
    StartFatal "Start rsync Server Thread Error: " res ""
  else
    let res := pool_res in
    if negb (res =? kSuccess) then
      StartFatal "Start ThreadPool Error: " res
        (if res =? kCreateThreadError then ": create thread error "
         else ": other error")
    else StartReturns res.

(** ** List records: codec and compaction filters

    [lists_filter_test.cc] drives [ListsMetaValue], [ListsDataKey],
    [ListsMetaFilter] and [ListsDataFilter]; their implementation is not part
    of the sources at hand.  Keys and values are byte strings ([Slice]); the
    meta column family is a finite map from user keys to meta values. *)

Module Lists.

(** Modelled from the spec: the fixed-width integers of the codec, which is
    missing from the sources.  Least significant byte first. *)
Fixpoint decode_le (s : string) : Z :=
  match s with
  | EmptyString => 0
  | String c r => Z.of_N (N_of_ascii c) + 256 * decode_le r
  end.

(** Modelled from the spec: the integers inside keys, most significant byte
    first (the codec is missing from the sources). *)
Definition decode_be (s : string) : Z := decode_le (String.rev s).

Fixpoint encode_le (width : nat) (z : Z) : string :=
  match width with
  | O => EmptyString
  | S w => String (ascii_of_N (Z.to_N (z mod 256))) (encode_le w (z / 256))
  end.

Definition encode_be (width : nat) (z : Z) : string :=
  String.rev (encode_le width z).

(** Modelled from the spec: the signed fields of the codec, which is missing
    from the sources; an unsigned [bits]-bit pattern read as a signed
    integer. *)
Definition to_signed (bits : Z) (z : Z) : Z :=
  if z <? 2 ^ (bits - 1) then z else z - 2 ^ bits.

(** Modelled from the spec: the fields of a list meta record (the record
    type is missing from the sources); [trailing] are the bytes after the
    fixed prefix. *)
Record Meta : Type := {
  size : Z;
  version : Z;
  ttl : Z;
  trailing : string
}.

(** Modelled from the spec: the codec of meta values, which is missing from
    the sources.  A value is [size] (unsigned 64-bit, little-endian),
    [version] (signed 32-bit), [ttl] (signed 64-bit) and trailing bytes that
    are kept as they are; a value shorter than this fixed prefix does not
    parse. *)
Definition parse_meta (v : string) : option Meta :=
  if (String.length v <? 20)%nat then None
  else Some {| size := decode_le (substring 0 8 v);
               version := to_signed 32 (decode_le (substring 8 4 v));
               ttl := to_signed 64 (decode_le (substring 12 8 v));
               trailing := substring 20 (String.length v - 20) v |}.

Definition encode_meta (m : Meta) : string :=
  encode_le 8 (size m) +:+ encode_le 4 (version m) +:+ encode_le 8 (ttl m)
    +:+ trailing m.

(** Modelled from the spec: the codec of data keys, which is missing from
    the sources.  A key is the user key followed by the version (32-bit,
    big-endian) and the element index (64-bit, big-endian); a key shorter
    than these twelve bytes does not parse. *)
Definition parse_data_key (k : string) : option (string * Z * Z) :=
  let n := String.length k in
  if (n <? 12)%nat then None
  else Some (substring 0 (n - 12) k,
             to_signed 32 (decode_be (substring (n - 12) 4 k)),
             decode_be (substring (n - 8) 8 k)).

Definition encode_data_key (user_key : string) (ver index : Z) : string :=
  user_key +:+ encode_be 4 ver +:+ encode_be 8 index.

(** Modelled from the spec: the constructor of [ListsMetaValue], which is
    missing from the sources.  The value is built from the encoded element
    count, as the tests do; version and ttl start at 0. *)
Definition ListsMetaValue (count : string) : Meta :=
  {| size := decode_le count; version := 0; ttl := 0; trailing := "" |}.


(** Modelled from the spec: what a signed 32-bit field, as the version of a
    meta record is, holds when an integer is stored into it (the record type
    is missing from the sources). *)
Definition to_int32 (z : Z) : Z := to_signed 32 (z mod 2 ^ 32).

(** Modelled from the spec: [ListsMetaValue::UpdateVersion], which is missing
    from the sources.  It sets the version to the larger of the old version
    plus one and the current unix time [now], stored in the signed 32-bit
    version field, and returns the new version. *)
Definition UpdateVersion (now : Z) (m : Meta) : Z * Meta :=
  let v := to_int32 (Z.max (version m + 1) now) in
  (v, {| size := size m; version := v; ttl := ttl m; trailing := trailing m |}).

(** Modelled from the spec: [ListsMetaValue::SetRelativeTimestamp], which is
    missing from the sources.  It stores the current time plus the given
    seconds as ttl. *)
Definition SetRelativeTimestamp (now seconds : Z) (m : Meta) : Meta :=
  {| size := size m; version := version m; ttl := now + seconds;
     trailing := trailing m |}.

(** The versions returned by successive calls of [UpdateVersion] on one
    record, one call at each of the given times, in their order. *)
Fixpoint update_versions (times : list Z) (m : Meta) : list Z * Meta :=
  match times with
  | [] => ([], m)
  | now :: rest =>
      let '(v, m1) := UpdateVersion now m in
      let '(vs, m2) := update_versions rest m1 in
      (v :: vs, m2)
  end.

(** Modelled from the spec: the expiry test of both filters (they are
    missing from the sources); a ttl of 0 means no expiry. *)
Definition expired (ttl now : Z) : bool := negb (ttl =? 0) && (ttl <? now).

(** Modelled from the spec: [ListsMetaFilter::Filter], which is missing from
    the sources.  The result is [true] when the record is dropped.  The meta
    value is the only input besides the clock; a value that does not parse
    is kept (errors of a filter are turned into "keep"). *)
Definition MetaFilter (now : Z) (value : string) : bool :=
  match parse_meta value with
  | None => false
  | Some m => (size m =? 0) || expired (ttl m) now
  end.

(** Modelled from the spec: the state of one [ListsDataFilter], which is
    missing from the sources; the user key of the last lookup and what the
    lookup found. *)
Record DataFilterState : Type := {
  last_user_key : option string;
  meta_exists : bool;
  meta_version : Z;
  meta_ttl : Z
}.

Definition fresh_filter : DataFilterState :=
  {| last_user_key := None; meta_exists := false; meta_version := 0;
     meta_ttl := 0 |}.

(** Modelled from the spec: the decision of [ListsDataFilter::Filter], which
    is missing from the sources, on the cached state. *)
Definition decision (st : DataFilterState) (version_d now : Z) : bool :=
  if negb (meta_exists st) then true
  else if expired (meta_ttl st) now then true
  else if version_d <? meta_version st then true
  else false.

(** Modelled from the spec: [ListsDataFilter::Filter], which is missing from
    the sources.  [db] is the meta column family.  A key that does not parse
    is dropped; a key equal to the cached one reuses the cached state;
    otherwise the meta record is looked up and cached.  A meta value that is
    found and does not parse is an error of the filter: the record is kept
    and nothing is cached. *)
Definition DataFilter (db : gmap string string) (now : Z)
    (st : DataFilterState) (key : string) : bool * DataFilterState :=
  match parse_data_key key with
  | None => (true, st)
  | Some (user_key, version_d, _) =>
      if decide (last_user_key st = Some user_key) then
        (decision st version_d now, st)
      else
        match db !! user_key with
        | None =>
            let st' := {| last_user_key := Some user_key; meta_exists := false;
                          meta_version := meta_version st;
                          meta_ttl := meta_ttl st |} in
            (decision st' version_d now, st')
        | Some v =>
            match parse_meta v with
            | None => (false, st)
            | Some m =>
                let st' := {| last_user_key := Some user_key;
                              meta_exists := true;
                              meta_version := version m;
                              meta_ttl := ttl m |} in
                (decision st' version_d now, st')
            end
        end
  end.

(** The filter run over the records of a compaction: each record comes with
    the time of its call. *)
Fixpoint run_filter (db : gmap string string) (st : DataFilterState)
    (records : list (Z * string)) : list bool * DataFilterState :=
  match records with
  | [] => ([], st)
  | (now, key) :: rest =>
      let '(d, st1) := DataFilter db now st key in
      let '(ds, st2) := run_filter db st1 rest in
      (d :: ds, st2)
  end.

(** The cached state agrees with the meta column family [db]: nothing is
    cached yet, or what is cached is what a lookup of the cached key finds. *)
Definition cache_ok (db : gmap string string) (st : DataFilterState) : Prop :=
  match last_user_key st with
  | None => True
  | Some user_key =>
      match db !! user_key with
      | None => meta_exists st = false
      | Some v =>
          exists m, parse_meta v = Some m /\ meta_exists st = true /\
                    meta_version st = version m /\ meta_ttl st = ttl m
      end
  end.

(** The times and encoded values of the scenarios of [lists_filter_test.cc],
    with the clock under control: [t0] is the time of the first call. *)
Definition t0 : Z := 1700000000.

Definition test_count (n : Z) : string := encode_le 8 n.

(** The meta column family of scenario S5: the list ["K"] at version 9. *)
Definition s5_db : gmap string string :=
  {[ "K"%string := encode_meta {| size := 1; version := 9; ttl := 0; trailing := "" |} ]}.

End Lists.

(** * Properties *)

(** ** Machine integers *)

Lemma to_size_t_range z : is_size_t (to_size_t z).
Proof. unfold is_size_t, to_size_t. apply Z.mod_pos_bound. lia. Qed.

Lemma to_size_t_id z : is_size_t z -> to_size_t z = z.
Proof. unfold is_size_t, to_size_t. intros H. apply Z.mod_small. lia. Qed.

(** ** System calls *)

Lemma pread_spec f n off b bs :
  pread f n off = (b, bs) ->
  (b = -1 /\ bs = [] /\ pread_fails f off = true) \/
  (pread_fails f off = false /\
   bs = take (Z.to_nat n) (drop (Z.to_nat off) (content f)) /\
   b = Z.of_nat (length bs) /\ (0 <= n -> b <= n)).
Proof.
  unfold pread. destruct (pread_fails f off); intros [= <- <-].
  - left. auto.
  - right. repeat split. rewrite length_take. lia.
Qed.

Lemma read_spec f pos n b bs :
  read f pos n = (b, bs) ->
  (b = -1 /\ bs = [] /\ read_fails f pos = true) \/
  (read_fails f pos = false /\
   bs = take (Z.to_nat n) (drop (Z.to_nat pos) (content f)) /\
   b = Z.of_nat (length bs) /\ (0 <= n -> b <= n)).
Proof.
  unfold read. destruct (read_fails f pos); intros [= <- <-].
  - left. auto.
  - right. repeat split. rewrite length_take. lia.
Qed.

Module ReaderFacts.
Import Reader.

Lemma kMax_value : kMaxCopyBlockSize = 1048576.
Proof. reflexivity. Qed.

(** The subtraction on [size_t] never yields a negative number: the guard of
    line 43 is false whatever the operands are. *)
Lemma break_guard_dead left bytesin : break_guard (sub_left left bytesin) = false.
Proof.
  unfold break_guard, sub_left.
  pose proof (to_size_t_range (left - bytesin)) as H. unfold is_size_t in H.
  apply Z.ltb_ge. lia.
Qed.

(** A step leaves the loop only with the result of its [pread], which is
    then 0 or -1, and leaves the variables as they are. *)
Lemma pread_step_exit f s b s' :
  pread_step f s = inr (b, s') ->
  s' = s /\ (b = 0 \/ b = -1) /\ fst (pread f (read_count s) (read_offset s)) = b.
Proof.
  unfold pread_step.
  destruct (pread f (read_count s) (read_offset s)) as [b0 bs] eqn:E.
  apply pread_spec in E.
  destruct (0 <? b0) eqn:Hpos.
  - rewrite break_guard_dead. discriminate.
  - intros [= <- <-]. apply Z.ltb_ge in Hpos. simpl. intuition lia.
Qed.

Lemma pread_step_next f s s' :
  bounded s ->
  pread_step f s = inl s' ->
  exists bs, pread f (read_count s) (read_offset s) = (Z.of_nat (length bs), bs) /\
    (0 < length bs)%nat /\
    Z.of_nat (length bs) <= read_count s /\
    buffer s' = buffer s ++ bs /\
    bytes_read s' = to_size_t (bytes_read s + Z.of_nat (length bs)) /\
    read_offset s' = to_size_t (read_offset s + Z.of_nat (length bs)) /\
    left_read_count s' = left_read_count s - Z.of_nat (length bs) /\
    read_count s' = Z.min (read_count s) (left_read_count s') /\
    bounded s'.
Proof.
  intros [Hrc Hleft]. unfold pread_step.
  destruct (pread f (read_count s) (read_offset s)) as [b bs] eqn:E.
  pose proof E as E'. apply pread_spec in E'.
  destruct (0 <? b) eqn:Hpos; [|discriminate].
  apply Z.ltb_lt in Hpos. rewrite break_guard_dead.
  destruct E' as [[-> _]|(_ & _ & Hb & Hle)]; [lia|].
  specialize (Hle (proj1 Hrc)).
  assert (Hsub : sub_left (left_read_count s) b = left_read_count s - b).
  { unfold sub_left. apply to_size_t_id. unfold is_size_t. lia. }
  rewrite Hsub. intros [= <-]. simpl. exists bs. subst b.
  repeat split; simpl; try lia;
    destruct (Z.ltb_spec (left_read_count s - Z.of_nat (length bs)) (read_count s)); lia.
Qed.


Lemma reaches_bounded f s s' : bounded s -> reaches f s s' -> bounded s'.
Proof.
  intros Hb Hr. induction Hr as [|s s1 s2 Hstep _ IH]; [done|].
  apply IH. apply (pread_step_next f s s1 Hb) in Hstep.
  destruct Hstep as (bs & H). apply H.
Qed.

Lemma reaches_trans f s1 s2 s3 :
  reaches f s1 s2 -> reaches f s2 s3 -> reaches f s1 s3.
Proof.
  induction 1; [done|]. intros. eapply reaches_next; eauto.
Qed.


(** With one unit of fuel per byte that is left and one more, the loop ends;
    it ends in a state the steps lead to, on a [pread] that returns 0 or -1. *)
Lemma pread_loop_total fuel f s :
  bounded s -> (Z.to_nat (left_read_count s) < fuel)%nat ->
  exists b s', pread_loop fuel f s = Some (b, s') /\ reaches f s s' /\
    fst (pread f (read_count s') (read_offset s')) = b /\ (b = 0 \/ b = -1).
Proof.
  revert s. induction fuel as [|fuel IH]; intros s Hb Hfuel; [lia|].
  simpl. destruct (pread_step f s) as [s1|[b s']] eqn:Hstep.
  - pose proof (pread_step_next f s s1 Hb Hstep) as (bs & _ & Hpos & _ & _ & _ & _ & Hleft & _ & Hb1).
    destruct (IH s1 Hb1) as (b & s' & Hloop & Hr & Hret);
      [destruct Hb1 as [[? ?] ?]; lia|].
    exists b, s'. split; [done|]. split; [|done].
    eapply reaches_next; eauto.
  - apply pread_step_exit in Hstep as (-> & Hb01 & Hret).
    exists b, s. repeat split; try done. constructor.
Qed.

(** Whatever the fuel, a result of the loop is of that kind. *)
Lemma pread_loop_exit fuel f s b s' :
  pread_loop fuel f s = Some (b, s') ->
  reaches f s s' /\ fst (pread f (read_count s') (read_offset s')) = b /\
  (b = 0 \/ b = -1).
Proof.
  revert s. induction fuel as [|fuel IH]; intros s; [done|].
  simpl. destruct (pread_step f s) as [s1|[b1 s1]] eqn:Hstep.
  - intros H. apply IH in H as (Hr & Hret). split; [|done].
    eapply reaches_next; eauto.
  - intros [= -> ->]. apply pread_step_exit in Hstep as (-> & Hb01 & Hret).
    repeat split; try done. constructor.
Qed.

(** *** The second pass *)


Lemma md5_loop_exit fuel f pos md5 b md5' :
  md5_loop fuel f pos md5 = Some (b, md5') ->
  (b = 0 \/ b = -1) /\
  exists pos', read_reaches f pos pos' /\ fst (read f pos' kMaxCopyBlockSize) = b.
Proof.
  revert pos md5. induction fuel as [|fuel IH]; intros pos md5; [done|].
  simpl. destruct (read f pos kMaxCopyBlockSize) as [b1 bs] eqn:E.
  destruct (Z.ltb_spec 0 b1) as [Hpos|Hle].
  - intros H. apply IH in H as (Hb & pos' & Hr & Hret).
    split; [done|]. exists pos'. split; [|done].
    apply read_reaches_next; rewrite E; done.
  - intros [= -> ->]. apply read_spec in E as Hs. split.
    + destruct Hs as [(-> & _)|(_ & _ & -> & _)]; lia.
    + exists pos. split; [constructor|]. by rewrite E.
Qed.

(** One unit of fuel per byte after the position and one more are enough. *)
Lemma md5_loop_total fuel f pos md5 :
  0 <= pos -> (length (content f) - Z.to_nat pos < fuel)%nat ->
  exists b md5', md5_loop fuel f pos md5 = Some (b, md5').
Proof.
  revert pos md5. induction fuel as [|fuel IH]; intros pos md5 Hpos Hfuel; [lia|].
  simpl. destruct (read f pos kMaxCopyBlockSize) as [b bs] eqn:E.
  destruct (Z.ltb_spec 0 b) as [Hb|Hb]; [|eauto].
  apply read_spec in E as [(-> & _)|(_ & Hbs & -> & _)]; [lia|].
  apply IH; [lia|].
  assert (length bs <= length (content f) - Z.to_nat pos)%nat.
  { rewrite Hbs, length_take, length_drop. lia. }
  lia.
Qed.

(** *** The bookkeeping *)

Lemma start_bounded offset count o : is_size_t count -> bounded (start offset count o).
Proof.
  unfold is_size_t, bounded, start. simpl. rewrite kMax_value.
  destruct (Z.ltb_spec 1048576 count); lia.
Qed.

Lemma start_counts offset count :
  is_size_t count -> counts count (start offset count fresh_outs).
Proof.
  intros H. split; [by apply start_bounded|].
  unfold is_size_t in H. unfold start. simpl. rewrite kMax_value.
  destruct (Z.ltb_spec 1048576 count); lia.
Qed.

Lemma reaches_counts f count s s' :
  count < 2 ^ 64 -> counts count s -> reaches f s s' -> counts count s'.
Proof.
  intros Hc Hs Hr. induction Hr as [|s s1 s2 Hstep _ IH]; [done|].
  apply IH. destruct Hs as (Hb & Hrc & Hbr & Hsum & Hlen).
  apply (pread_step_next f s s1 Hb) in Hstep
    as (bs & _ & Hpos & Hle & Hbuf & Hbr1 & _ & Hleft & Hrc1 & Hb1).
  destruct Hb as [[? ?] ?].
  rewrite to_size_t_id in Hbr1 by (unfold is_size_t; lia).
  split; [done|]. rewrite Hbuf, length_app. lia.
Qed.

(** *** The whole reader *)

Lemma ReadDumpFile_no_file fs filepath offset count o :
  fs !! filepath = None ->
  ReadDumpFile fs filepath offset count o = Some (IOError "fd open failed", o).
Proof. intros H. unfold ReadDumpFile. by rewrite H. Qed.

(** The run on a file that opens: the first loop ends in a state [s] on a
    [pread] that returns [b]; the second loop, when it is entered, ends on a
    [read] that returns [b']. *)
Lemma ReadDumpFile_run fs filepath f offset count o :
  fs !! filepath = Some f -> is_size_t count ->
  exists b s b' md5 pos,
    reaches f (start offset count o) s /\
    fst (pread f (read_count s) (read_offset s)) = b /\ (b = 0 \/ b = -1) /\
    read_reaches f 0 pos /\
    fst (read f pos kMaxCopyBlockSize) = b' /\ (b' = 0 \/ b' = -1) /\
    md5_loop (S (length (content f))) f 0 MD5.init = Some (b', md5) /\
    ReadDumpFile fs filepath offset count o =
      Some (if (b =? -1) || (b' =? -1)
            then (unable_to_read filepath,
                  {| data := buffer s; nread := bytes_read s; checksum := checksum o |})
            else (OK, {| data := buffer s; nread := bytes_read s;
                         checksum := Md5Hex md5 |})).
Proof.
  intros Hf Hc. unfold ReadDumpFile. rewrite Hf.
  destruct (pread_loop_total (S (Z.to_nat count)) f (start offset count o))
    as (b & s & Hloop & Hr & Hret & Hb).
  { by apply start_bounded. }
  { simpl. lia. }
  destruct (md5_loop_total (S (length (content f))) f 0 MD5.init)
    as (b' & md5 & Hmd5); [lia|lia|].
  pose proof (md5_loop_exit _ _ _ _ _ _ Hmd5) as (Hb' & pos & Hrr & Hret').
  exists b, s, b', md5, pos. repeat split; try done.
  rewrite Hloop, Hmd5.
  destruct Hb as [-> | ->]; destruct Hb' as [-> | ->]; reflexivity.
Qed.

(** [ReadDumpFile] always returns. *)
Lemma ReadDumpFile_total fs filepath offset count o :
  is_size_t count ->
  exists st o', ReadDumpFile fs filepath offset count o = Some (st, o').
Proof.
  intros Hc. destruct (fs !! filepath) as [f|] eqn:Hf.
  - destruct (ReadDumpFile_run fs filepath f offset count o Hf Hc)
      as (b & s & b' & md5 & pos & _ & _ & _ & _ & _ & _ & _ & ->).
    destruct ((b =? -1) || (b' =? -1)); eauto.
  - rewrite ReadDumpFile_no_file by done. eauto.
Qed.


(** Conversely the reader fails only then, and only with [IOError]. *)
Lemma ReadDumpFile_not_ok fs filepath offset count o st o' :
  is_size_t count ->
  ReadDumpFile fs filepath offset count o = Some (st, o') -> st <> OK ->
  is_io_error st = true /\ io_failure fs filepath offset count o.
Proof.
  intros Hc. unfold io_failure. destruct (fs !! filepath) as [f|] eqn:Hf.
  - destruct (ReadDumpFile_run fs filepath f offset count o Hf Hc)
      as (b & s & b' & md5 & pos & Hr & Hret & Hb & Hrr & Hret' & Hb' & _ & ->).
    destruct Hb as [-> | ->]; destruct Hb' as [-> | ->]; simpl;
      intros [= <- <-] Hno; try done; (split; [done|]).
    + right. split; [by exists s|by exists pos].
    + left. by exists s.
    + left. by exists s.
  - rewrite ReadDumpFile_no_file by done. by intros [= <- <-] _.
Qed.

(** A successful call has run the second pass: its checksum is a digest. *)
Lemma ReadDumpFile_ok_checksum fs filepath offset count o o' :
  is_size_t count ->
  ReadDumpFile fs filepath offset count o = Some (OK, o') ->
  exists md5, checksum o' = Md5Hex md5.
Proof.
  intros Hc. destruct (fs !! filepath) as [f|] eqn:Hf.
  - destruct (ReadDumpFile_run fs filepath f offset count o Hf Hc)
      as (b & s & b' & md5 & pos & _ & _ & _ & _ & _ & _ & _ & ->).
    destruct ((b =? -1) || (b' =? -1)); [done|]. intros [= <-]. by exists md5.
  - by rewrite ReadDumpFile_no_file.
Qed.

(** What a call into an empty buffer delivers, whether it succeeds or not:
    never more than [count] bytes, and as many as it reports. *)
Lemma ReadDumpFile_counts fs filepath offset count st o' :
  is_size_t count ->
  ReadDumpFile fs filepath offset count fresh_outs = Some (st, o') ->
  0 <= nread o' <= count /\ Z.of_nat (length (data o')) = nread o'.
Proof.
  intros Hc. destruct (fs !! filepath) as [f|] eqn:Hf.
  - destruct (ReadDumpFile_run fs filepath f offset count fresh_outs Hf Hc)
      as (b & s & b' & md5 & pos & Hr & _ & _ & _ & _ & _ & _ & ->).
    assert (Hs : counts count s).
    { eapply reaches_counts; [apply Hc | by apply start_counts | done]. }
    destruct Hs as ([[? ?] ?] & _ & ? & ? & ?).
    destruct ((b =? -1) || (b' =? -1)); intros [= <- <-]; simpl; lia.
  - rewrite ReadDumpFile_no_file by done. intros [= <- <-].
    unfold is_size_t in Hc. simpl. lia.
Qed.

(** *** Files that read without failure *)

Lemma take_length_take {A} (n : nat) (l : list A) :
  take (length (take n l)) l = take n l.
Proof.
  rewrite length_take. destruct (Nat.le_gt_cases n (length l)).
  - by rewrite Nat.min_l.
  - rewrite Nat.min_r by lia. rewrite !take_ge; [done|lia|lia].
Qed.

Lemma take_chunks {A} (rc left : nat) (d : list A) :
  (rc <= left)%nat ->
  take rc d ++ take (left - length (take rc d)) (drop (length (take rc d)) d)
  = take left d.
Proof.
  intros Hle. rewrite <- (take_length_take rc d) at 1.
  rewrite take_take_drop. f_equal.
  rewrite length_take. lia.
Qed.

(** On a file whose positioned reads never fail the first loop ends with the
    requested range, as far as the file goes, in the buffer. *)
Lemma reaches_no_failure f count s s' :
  (forall off, pread_fails f off = false) ->
  Z.of_nat (length (content f)) < 2 ^ 64 -> count < 2 ^ 64 ->
  counts count s -> 0 <= read_offset s ->
  reaches f s s' ->
  fst (pread f (read_count s') (read_offset s')) <= 0 ->
  buffer s' = buffer s ++ take (Z.to_nat (left_read_count s))
                               (drop (Z.to_nat (read_offset s)) (content f)).
Proof.
  intros Hpf Hlen Hc Hs Hoff Hr. induction Hr as [s|s s1 s2 Hstep Hr IH]; intros Hend.
  - destruct (pread f (read_count s) (read_offset s)) as [b bs] eqn:E.
    apply pread_spec in E as [(_ & _ & Hf)|(_ & Hbs & Hb & _)];
      [by rewrite Hpf in Hf|].
    simpl in Hend. assert (bs = []) as -> by (apply length_zero_iff_nil; lia).
    destruct Hs as ([[? ?] ?] & Hrc & _). rewrite kMax_value in Hrc.
    destruct (drop (Z.to_nat (read_offset s)) (content f)) as [|x d].
    + by rewrite take_nil, app_nil_r.
    + destruct (Z.to_nat (read_count s)) eqn:Hn; [|done].
      replace (Z.to_nat (left_read_count s)) with 0%nat by lia.
      by rewrite app_nil_r.
  - assert (Hs1 : counts count s1).
    { eapply reaches_counts; [done|apply Hs|]. eapply reaches_next; [done|constructor]. }
    pose proof Hs as (Hb & _).
    apply (pread_step_next f s s1 Hb) in Hstep
      as (bs & E & Hpos & Hle & Hbuf & _ & Hoff1 & Hleft & _ & _).
    apply pread_spec in E as [(? & _)|(_ & Hbs & _ & _)]; [lia|].
    destruct Hb as [[? ?] ?].
    assert (Hfit : Z.of_nat (length bs) <= Z.of_nat (length (content f)) - read_offset s).
    { assert (length bs = Z.to_nat (read_count s) `min`
                (length (content f) - Z.to_nat (read_offset s)))%nat
        by (rewrite Hbs at 1; by rewrite length_take, length_drop).
      lia. }
    rewrite to_size_t_id in Hoff1 by (unfold is_size_t; lia).
    rewrite IH by (done || lia). rewrite Hbuf, <- app_assoc. f_equal.
    rewrite Hoff1, Hleft.
    replace (Z.to_nat (read_offset s + Z.of_nat (length bs)))
      with (Z.to_nat (read_offset s) + length bs)%nat by lia.
    replace (Z.to_nat (left_read_count s - Z.of_nat (length bs)))
      with (Z.to_nat (left_read_count s) - length bs)%nat by lia.
    rewrite <- drop_drop. rewrite Hbs. apply take_chunks. lia.
Qed.

(** On a file whose sequential reads never fail the second pass feeds the
    whole rest of the file to the digest. *)
Lemma md5_loop_no_failure fuel f pos md5 :
  (forall p, read_fails f p = false) ->
  0 <= pos -> (length (content f) - Z.to_nat pos < fuel)%nat ->
  md5_loop fuel f pos md5 = Some (0, md5 ++ drop (Z.to_nat pos) (content f)).
Proof.
  intros Hrf. revert pos md5.
  induction fuel as [|fuel IH]; intros pos md5 Hpos Hfuel; [lia|].
  simpl. destruct (read f pos kMaxCopyBlockSize) as [b bs] eqn:E.
  apply read_spec in E as [(_ & _ & Hf)|(_ & Hbs & -> & _)];
    [by rewrite Hrf in Hf|].
  assert (Hfit : (length bs <= length (content f) - Z.to_nat pos)%nat).
  { rewrite Hbs, length_take, length_drop. lia. }
  destruct (Z.ltb_spec 0 (Z.of_nat (length bs))) as [Hb|Hb].
  - rewrite IH by lia. unfold MD5.update. rewrite <- app_assoc. do 3 f_equal.
    replace (Z.to_nat (pos + Z.of_nat (length bs)))
      with (Z.to_nat pos + length bs)%nat by lia.
    rewrite <- drop_drop.
    rewrite <- (take_drop (length bs) (drop (Z.to_nat pos) (content f))) at 2.
    f_equal. rewrite Hbs at 2. by rewrite take_length_take.
  - assert (bs = []) as Hnil by (apply length_zero_iff_nil; lia).
    rewrite Hnil in Hbs |- *. simpl. rewrite kMax_value in Hbs.
    destruct (drop (Z.to_nat pos) (content f)) as [|x d]; [by rewrite app_nil_r|].
    replace (Z.to_nat 1048576) with (S (Z.to_nat 1048575)) in Hbs by lia.
    done.
Qed.

(** The range of the file that a request covers. *)
Lemma ReadDumpFile_no_failure fs filepath f offset count :
  fs !! filepath = Some f ->
  (forall off, pread_fails f off = false) ->
  (forall p, read_fails f p = false) ->
  Z.of_nat (length (content f)) < 2 ^ 64 ->
  is_size_t count -> 0 <= offset ->
  let range := take (Z.to_nat count) (drop (Z.to_nat offset) (content f)) in
  ReadDumpFile fs filepath offset count fresh_outs =
    Some (OK, {| data := range; nread := Z.of_nat (length range);
                 checksum := Md5Hex (content f) |}).
Proof.
  intros Hf Hpf Hrf Hlen Hc Hoff range.
  destruct (ReadDumpFile_run fs filepath f offset count fresh_outs Hf Hc)
    as (b & s & b' & md5 & pos & Hr & Hret & Hb & _ & _ & _ & Hmd5 & ->).
  assert (b = 0) as ->.
  { destruct Hb as [-> | ->]; [done|].
    destruct (pread f (read_count s) (read_offset s)) as [b bs] eqn:E.
    apply pread_spec in E as [(_ & _ & Hfail)|(_ & _ & Hb & _)];
      [by rewrite Hpf in Hfail|simpl in Hret; lia]. }
  rewrite md5_loop_no_failure in Hmd5 by (done || lia).
  injection Hmd5 as <- <-. simpl.
  pose proof (start_counts offset count Hc) as Hs0.
  assert (Hs : counts count s).
  { eapply reaches_counts; [apply Hc|apply Hs0|done]. }
  assert (Hbuf : buffer s = range).
  { rewrite (reaches_no_failure f count _ s Hpf Hlen (proj2 Hc) Hs0 Hoff Hr)
      by (rewrite Hret; lia).
    done. }
  destruct Hs as (_ & _ & _ & _ & Hn). rewrite <- Hn, Hbuf. done.
Qed.

End ReaderFacts.

(** ** The handlers *)

Module RsyncFacts.
Import Reader ReaderFacts.

Lemma buffer_size_fits count :
  0 <= count < 2 ^ 64 - 1 -> buffer_size count = count + 1.
Proof. intros H. unfold buffer_size. apply to_size_t_id. unfold is_size_t. lia. Qed.

(** The handler on a request whose partition and snapshot UUID are found and
    whose buffer is allocated: one response, built from what the reader
    returns. *)
Lemma HandleFileRsyncRequest_run srv req conn slot uuid st o :
  GetDumpUUID srv (req_db_name req) (req_slot_id req) = (OK, uuid) ->
  GetDBSlotById srv (req_db_name req) (req_slot_id req) = Some slot ->
  alloc_ok srv (buffer_size (req_count (file_req req))) = true ->
  0 <= req_count (file_req req) < 2 ^ 64 - 1 ->
  ReadDumpFile (disk srv) (dump_path slot req) (req_offset (file_req req))
    (req_count (file_req req)) fresh_outs = Some (st, o) ->
  HandleFileRsyncRequest srv req conn =
    Returns (RsyncWriteResp
      (if ok st then
         set_file_resp
           {| resp_data := take (Z.to_nat (nread o)) (data o);
              resp_eof := negb (nread o =? req_count (file_req req));
              resp_checksum := checksum o;
              resp_filename := req_filename (file_req req);
              resp_count := nread o;
              resp_offset := req_offset (file_req req) |}
           (file_response req uuid)
       else err_response req uuid) conn).
Proof.
  intros Huuid Hslot Halloc Hc Hread. unfold HandleFileRsyncRequest.
  rewrite Huuid, Hslot. simpl. fold (dump_path slot req). rewrite Halloc, Hread.
  assert (Hsize : is_size_t (req_count (file_req req))) by (unfold is_size_t; lia).
  destruct (ReadDumpFile_counts _ _ _ _ _ _ Hsize Hread) as [Hn Hlen].
  rewrite buffer_size_fits by done. simpl.
  destruct (Z.ltb_spec (req_count (file_req req) + 1) (Z.of_nat (length (data o))));
    [lia|].
  destruct st; reflexivity.
Qed.

(** The handler never runs out of fuel. *)
Lemma HandleFileRsyncRequest_total srv req conn :
  is_size_t (req_count (file_req req)) ->
  HandleFileRsyncRequest srv req conn <> OutOfFuel.
Proof.
  intros Hc. unfold HandleFileRsyncRequest.
  destruct (GetDumpUUID srv (req_db_name req) (req_slot_id req)) as [s uuid].
  destruct (ok s); simpl; [|done].
  destruct (GetDBSlotById srv (req_db_name req) (req_slot_id req)) as [slot|]; [|done].
  destruct (alloc_ok srv (buffer_size (req_count (file_req req)))); simpl; [|done].
  destruct (ReadDumpFile_total (disk srv)
              (bgsave_path slot +:+ "/" +:+ req_filename (file_req req))
              (req_offset (file_req req)) (req_count (file_req req)) fresh_outs Hc)
    as (st & o & ->).
  destruct (buffer_size (req_count (file_req req)) <? Z.of_nat (length (data o)));
    [done|].
  destruct (ok st); done.
Qed.

(** *** The snapshot of scenario S7 *)

Lemma sst_00001_eq : sst_00001 = replicate (Z.to_nat 2621440) "000"%byte.
Proof. reflexivity. Qed.

Lemma s7_disk :
  disk s7_server !! "dump/00001.sst"%string = Some (plain_file sst_00001).
Proof. apply lookup_singleton_eq. Qed.

Local Opaque sst_00001.

Lemma s7_read offset count :
  is_size_t count -> 0 <= offset <= 2621440 ->
  ReadDumpFile (disk s7_server) "dump/00001.sst" offset count fresh_outs =
    Some (OK, {| data := replicate (Z.to_nat (Z.min count (2621440 - offset))) "000"%byte;
                 nread := Z.min count (2621440 - offset);
                 checksum := Md5Hex sst_00001 |}).
Proof.
  intros Hc Hoff.
  pose proof (ReadDumpFile_no_failure (disk s7_server) "dump/00001.sst"
                (plain_file sst_00001) offset count s7_disk
                (fun _ => eq_refl) (fun _ => eq_refl)) as H.
  cbv zeta in H. change (content (plain_file sst_00001)) with sst_00001 in H.
  rewrite sst_00001_eq in H at 1 2 3. rewrite length_replicate in H.
  rewrite drop_replicate, take_replicate, length_replicate in H.
  rewrite H; [|lia|done|lia]. unfold is_size_t in Hc.
  replace (Z.to_nat count `min` (Z.to_nat 2621440 - Z.to_nat offset))%nat
    with (Z.to_nat (Z.min count (2621440 - offset))) by lia.
  do 3 f_equal. lia.
Qed.

Lemma s7_handle offset count :
  is_size_t count -> 0 <= offset <= 2621440 -> count < 2 ^ 32 ->
  HandleFileRsyncRequest s7_server (s7_request offset count) idle_conn =
    Returns
      {| write_ok := true;
         frames :=
           [set_file_resp
              {| resp_data := replicate (Z.to_nat (Z.min count (2621440 - offset))) "000"%byte;
                 resp_eof := negb (Z.min count (2621440 - offset) =? count);
                 resp_checksum := Md5Hex sst_00001;
                 resp_filename := "00001.sst";
                 resp_count := Z.min count (2621440 - offset);
                 resp_offset := offset |}
              (file_response (s7_request offset count) "uuid-1")];
         closing := false |}.
Proof.
  intros Hc Hoff Hheap.
  assert (Hfit : 0 <= count < 2 ^ 64 - 1) by (unfold is_size_t in Hc; lia).
  assert (Halloc : alloc_ok s7_server (buffer_size count) = true).
  { rewrite buffer_size_fits by done. apply Z.leb_le. lia. }
  rewrite (HandleFileRsyncRequest_run s7_server (s7_request offset count) idle_conn
             s7_slot "uuid-1" OK _ eq_refl (lookup_singleton_eq _ _) Halloc Hfit
             (s7_read offset count Hc Hoff)).
  cbn [ok nread data checksum]. rewrite take_replicate, Nat.min_id. reflexivity.
Qed.

(** Scenario S7 as the code runs it: the first request, for 3 MiB, is
    answered with the whole file, the end-of-file mark and the checksum. *)
Example s7_first_request :
  HandleFileRsyncRequest s7_server (s7_request 0 (3 * MiB)) idle_conn =
    Returns
      {| write_ok := true;
         frames :=
           [set_file_resp
              {| resp_data := sst_00001; resp_eof := true;
                 resp_checksum := Md5Hex sst_00001;
                 resp_filename := "00001.sst"; resp_count := 2621440;
                 resp_offset := 0 |}
              (file_response (s7_request 0 (3 * MiB)) "uuid-1")];
         closing := false |}.
Proof.
  rewrite s7_handle by (unfold is_size_t, MiB; lia).
  change (Z.min (3 * MiB) (2621440 - 0)) with 2621440.
  rewrite sst_00001_eq at 2. reflexivity.
Qed.

(** The last request of the scenario, for the 1 MiB from 2 MiB on. *)
Example s7_last_request :
  HandleFileRsyncRequest s7_server (s7_request (2 * MiB) MiB) idle_conn =
    Returns
      {| write_ok := true;
         frames :=
           [set_file_resp
              {| resp_data := replicate (Z.to_nat 524288) "000"%byte;
                 resp_eof := true;
                 resp_checksum := Md5Hex sst_00001;
                 resp_filename := "00001.sst"; resp_count := 524288;
                 resp_offset := 2 * MiB |}
              (file_response (s7_request (2 * MiB) MiB) "uuid-1")];
         closing := false |}.
Proof.
  rewrite s7_handle by (unfold is_size_t, MiB; lia).
  change (Z.min MiB (2621440 - 2 * MiB)) with 524288. reflexivity.
Qed.

(** *** The bound on what one call delivers *)

(** C1, counterexample.  Asked for 3 MiB of the 2.5 MiB file from offset 0,
    one call of the reader delivers all 2621440 bytes, which is more than
    min(count, 1 MiB). *)
Lemma whole_file_in_one_call :
  exists o,
    ReadDumpFile (disk s7_server) "dump/00001.sst" 0 (3 * MiB) fresh_outs
      = Some (OK, o) /\
    nread o = 2621440 /\
    Z.of_nat (length (data o)) = 2621440 /\
    ~ (nread o <= Z.min (3 * MiB) kMaxCopyBlockSize).
Proof.
  eexists. split.
  - apply s7_read; [unfold is_size_t, MiB|]; lia.
  - cbn [nread data]. rewrite length_replicate.
    change (Z.min (3 * MiB) (2621440 - 0)) with 2621440.
    change (Z.min (3 * MiB) kMaxCopyBlockSize) with 1048576. lia.
Qed.

(** C1, amended.  Every call of the snapshot reader returns, and the number
    of bytes it delivers into the caller's empty buffer is at most [count];
    the buffer holds exactly that many bytes.  The ceiling of 1 MiB bounds
    each positioned read of the call: none asks for more than
    min(count, 1 MiB) bytes. *)
Theorem ReadDumpFile_at_most_count fs filepath offset count :
  is_size_t count ->
  exists st o,
    ReadDumpFile fs filepath offset count fresh_outs = Some (st, o) /\
    0 <= nread o <= count /\
    Z.of_nat (length (data o)) = nread o /\
    forall f s, fs !! filepath = Some f ->
      reaches f (start offset count fresh_outs) s ->
      0 <= read_count s <= Z.min count kMaxCopyBlockSize.
Proof.
  intros Hc.
  destruct (ReadDumpFile_total fs filepath offset count fresh_outs Hc)
    as (st & o & Hrun).
  exists st, o. split; [done|].
  destruct (ReadDumpFile_counts _ _ _ _ _ _ Hc Hrun) as [Hn Hlen].
  repeat split; try done; try lia.
  - assert (Hs : counts count s).
    { eapply reaches_counts; [apply Hc|by apply start_counts|done]. }
    destruct Hs as ([[? ?] ?] & _). done.
  - assert (Hs : counts count s).
    { eapply reaches_counts; [apply Hc|by apply start_counts|done]. }
    destruct Hs as ([[? ?] ?] & Hrc & ? & ? & _). lia.
Qed.

Lemma ReadDumpFile_at_most_count_witness :
  is_size_t (3 * MiB) /\
  exists st o,
    ReadDumpFile (disk s7_server) "dump/00001.sst" 0 (3 * MiB) fresh_outs
      = Some (st, o) /\
    0 <= nread o <= 3 * MiB /\
    Z.of_nat (length (data o)) = nread o /\
    forall f s, disk s7_server !! "dump/00001.sst"%string = Some f ->
      reaches f (start 0 (3 * MiB) fresh_outs) s ->
      0 <= read_count s <= Z.min (3 * MiB) kMaxCopyBlockSize.
Proof.
  assert (H : is_size_t (3 * MiB)) by (unfold is_size_t, MiB; lia).
  split; [exact H|].
  exact (ReadDumpFile_at_most_count (disk s7_server) "dump/00001.sst" 0 (3 * MiB) H).
Defined.

(** *** The checksum *)

(** Every successful call returns a digest: the first loop ends
    only on a [pread] that returns 0 or -1, so the test [bytesin == 0] of
    line 60 holds whenever the reader has not failed. *)
Lemma successful_read_has_checksum fs filepath offset count o o' :
  is_size_t count ->
  ReadDumpFile fs filepath offset count o = Some (OK, o') ->
  checksum_empty (checksum o') = false.
Proof.
  intros Hc Hrun. apply ReadDumpFile_ok_checksum in Hrun as [md5 ->]; done.
Qed.

(** C2, the code at the failing input.  The request for the first 1 MiB of
    the 2.5 MiB file is an intermediate chunk: the response delivers 1 MiB
    and says [eof = false], and still it carries the digest of the whole
    file as checksum, not the empty string. *)
Theorem intermediate_chunk_carries_checksum :
  exists fr,
    HandleFileRsyncRequest s7_server (s7_request 0 MiB) idle_conn =
      Returns {| write_ok := true;
                 frames := [set_file_resp fr (file_response (s7_request 0 MiB) "uuid-1")];
                 closing := false |} /\
    resp_count fr = MiB /\
    resp_eof fr = false /\
    resp_checksum fr = Md5Hex sst_00001 /\
    checksum_empty (resp_checksum fr) = false.
Proof.
  eexists. split.
  - apply s7_handle; [unfold is_size_t, MiB| |unfold MiB]; lia.
  - cbn [resp_count resp_eof resp_checksum].
    change (Z.min MiB (2621440 - 0)) with MiB. done.
Qed.

(** The reader on a file of five bytes, by evaluation: a range inside the
    file, and a range that runs past its end. *)
Example read_inside_file :
  ReadDumpFile {[ "f"%string := plain_file ["a"; "b"; "c"; "d"; "e"]%byte ]} "f" 1 3
    fresh_outs
  = Some (OK, {| data := ["b"; "c"; "d"]%byte; nread := 3;
                 checksum := Md5Hex ["a"; "b"; "c"; "d"; "e"]%byte |}).
Proof. vm_compute. reflexivity. Qed.

Example read_past_end :
  ReadDumpFile {[ "f"%string := plain_file ["a"; "b"; "c"; "d"; "e"]%byte ]} "f" 1 10
    fresh_outs
  = Some (OK, {| data := ["b"; "c"; "d"; "e"]%byte; nread := 4;
                 checksum := Md5Hex ["a"; "b"; "c"; "d"; "e"]%byte |}).
Proof. vm_compute. reflexivity. Qed.

(** *** Failures of the system calls *)

(** The file of three bytes, asked for ten: the first [pread] stores the
    three bytes, the second fails.  The reader returns [IOError]; its
    out-parameters are left as the loop had them. *)
Example flaky_read :
  ReadDumpFile (disk flaky_server) "dump/00001.sst" 0 10 fresh_outs =
    Some (IOError "unable to read from dump/00001.sst",
          {| data := ["a"; "b"; "c"]%byte; nread := 3; checksum := NoChecksum |}).
Proof. vm_compute. reflexivity. Qed.






(** X2.  The reader fails in no other way: a status that is not [OK] is an
    [IOError] and comes from a failed system call, that is a failed open, a
    [pread] of the first loop or a [read] of the second pass that has
    returned -1. *)
Lemma error_only_from_failure fs filepath offset count o st o' :
  is_size_t count ->
  ReadDumpFile fs filepath offset count o = Some (st, o') -> st <> OK ->
  is_io_error st = true /\ io_failure fs filepath offset count o.
Proof. apply ReadDumpFile_not_ok. Qed.

(** *** The guard of line 43 *)

(** C9.  [left_read_count] is a [size_t]: after [left_read_count -= bytesin],
    computed modulo 2^64, the test [left_read_count < 0] is false whatever
    the operands are.  So the loop is never left through [break]: whenever
    it ends, it ends on a [pread] that has returned 0 or -1, and a
    [read_count] that has shrunk to zero is one way to get the 0. *)
Theorem break_guard_never_taken :
  (forall left bytesin, break_guard (sub_left left bytesin) = false) /\
  (forall fuel f s b s',
      pread_loop fuel f s = Some (b, s') ->
      (b = 0 \/ b = -1) /\
      fst (pread f (read_count s') (read_offset s')) = b) /\
  (forall f s,
      read_count s = 0 -> pread_fails f (read_offset s) = false ->
      pread_step f s = inr (0, s)).
Proof.
  split; [apply break_guard_dead|]. split.
  - intros fuel f s b s' H. apply pread_loop_exit in H. tauto.
  - intros f s Hrc Hok. unfold pread_step, pread. rewrite Hrc, Hok. reflexivity.
Qed.

Lemma break_guard_never_taken_witness :
  (-1 = 0 \/ -1 = -1) /\
  fst (pread flaky_file 7 3) = -1.
Proof.
  exact (proj1 (proj2 break_guard_never_taken) 11%nat flaky_file
           (start 0 10 fresh_outs) (-1)
           {| buffer := ["a"; "b"; "c"]%byte; bytes_read := 3; read_offset := 3;
              read_count := 7; left_read_count := 7 |}
           eq_refl).
Defined.

(** *** Requests for a partition that is missing or saving *)

(** C5, counterexample.  The registry has no partition ["db0"], 0; the meta
    request is answered with nothing: the connection is as it was, without
    a frame, so no response of code [kErr] is sent. *)
Lemma absent_partition_gets_no_reply :
  GetDBSlotById no_slot_server (req_db_name meta_request) (req_slot_id meta_request)
    = None /\
  HandleMetaRsyncRequest no_slot_server meta_request idle_conn = idle_conn /\
  frames (HandleMetaRsyncRequest no_slot_server meta_request idle_conn) = [].
Proof. repeat split. Qed.

(** C5, amended.  A meta request whose partition is absent from the
    registry, or present and saving in the background, is dropped: the
    handler writes no response frame and leaves the connection as it was. *)
Theorem meta_request_dropped srv req conn :
  GetDBSlotById srv (req_db_name req) (req_slot_id req) = None \/
  (exists slot, GetDBSlotById srv (req_db_name req) (req_slot_id req) = Some slot /\
                IsBgSaving slot = true) ->
  HandleMetaRsyncRequest srv req conn = conn.
Proof.
  unfold HandleMetaRsyncRequest. intros [-> | (slot & -> & ->)]; reflexivity.
Qed.

Lemma meta_request_dropped_witness :
  HandleMetaRsyncRequest no_slot_server meta_request idle_conn = idle_conn.
Proof.
  apply (meta_request_dropped no_slot_server meta_request idle_conn).
  left. reflexivity.
Defined.

(** Otherwise the handler answers with the file list and the UUID. *)
Lemma meta_request_served srv req conn slot :
  GetDBSlotById srv (req_db_name req) (req_slot_id req) = Some slot ->
  IsBgSaving slot = false ->
  HandleMetaRsyncRequest srv req conn =
    RsyncWriteResp
      {| code := kOk; type := kRsyncMeta; db_name := req_db_name req;
         slot_id := req_slot_id req;
         snapshot_uuid := snd (GetDumpMeta srv (req_db_name req) (req_slot_id req));
         meta_resp := Some (fst (GetDumpMeta srv (req_db_name req) (req_slot_id req)));
         file_resp := None |} conn.
Proof.
  intros Hslot Hbg. unfold HandleMetaRsyncRequest. rewrite Hslot, Hbg.
  destruct (GetDumpMeta srv (req_db_name req) (req_slot_id req)). reflexivity.
Qed.

(** The first check of the file handler: when the snapshot UUID is not
    found the error response is written and the handler returns. *)
Lemma file_request_without_uuid srv req conn :
  ok (fst (GetDumpUUID srv (req_db_name req) (req_slot_id req))) = false ->
  HandleFileRsyncRequest srv req conn =
    Returns (RsyncWriteResp
               (err_response req (snd (GetDumpUUID srv (req_db_name req) (req_slot_id req))))
               conn).
Proof.
  intros H. unfold HandleFileRsyncRequest.
  destruct (GetDumpUUID srv (req_db_name req) (req_slot_id req)) as [st uuid].
  simpl in H. rewrite H. reflexivity.
Qed.

(** The second check has no [return]: when the UUID is found and the
    partition is not, the error response is written and the handler goes on
    to [slot->bgsave_info()] with the null [slot]. *)
Lemma file_request_without_slot srv req conn uuid :
  GetDumpUUID srv (req_db_name req) (req_slot_id req) = (OK, uuid) ->
  GetDBSlotById srv (req_db_name req) (req_slot_id req) = None ->
  HandleFileRsyncRequest srv req conn =
    NullSlotDeref (RsyncWriteResp (err_response req uuid) conn).
Proof.
  intros Huuid Hslot. unfold HandleFileRsyncRequest. rewrite Huuid, Hslot.
  reflexivity.
Qed.

(** C6, the code at the failing input.  The coordinator knows a snapshot
    UUID and the registry has no partition: the handler writes the response
    of code [kErr] and then, instead of returning, dereferences the null
    slot. *)
Theorem missing_slot_falls_through :
  GetDBSlotById no_slot_server "db0" 0 = None /\
  HandleFileRsyncRequest no_slot_server (s7_request 0 10) idle_conn =
    NullSlotDeref
      {| write_ok := true;
         frames := [err_response (s7_request 0 10) "uuid-1"];
         closing := false |}.
Proof. split; reflexivity. Qed.

(** *** Requests of another type *)

(** C10.  A frame that parses as a request whose type is neither
    [kRsyncMeta] nor [kRsyncFile] changes nothing: no task is put on the
    work queue, no frame is written, the connection is not marked for
    closing, and [DealMessage] returns 0. *)
Theorem unknown_type_ignored req c :
  req_type req <> kRsyncMeta -> req_type req <> kRsyncFile ->
  DealMessage (Some req) c = (0, c).
Proof.
  intros Hm Hf. unfold DealMessage. destruct (req_type req); done.
Qed.

Lemma unknown_type_ignored_witness :
  DealMessage
    (Some {| req_type := kOtherType 3; req_db_name := "db0"; req_slot_id := 0;
             file_req := {| req_filename := ""; req_offset := 0; req_count := 0 |} |})
    {| work_queue := []; pb_conn := idle_conn |}
  = (0, {| work_queue := []; pb_conn := idle_conn |}).
Proof.
  apply unknown_type_ignored; discriminate.
Defined.

End RsyncFacts.

(** ** List records *)

Module ListsFacts.
Import Lists.

Lemma expired_spec t now : expired t now = true <-> t <> 0 /\ t < now.
Proof.
  unfold expired. rewrite andb_true_iff, negb_true_iff, Z.eqb_neq, Z.ltb_lt. tauto.
Qed.

(** *** [UpdateVersion] *)







(** A clock that jumps back by a day between two calls. *)
Example update_version_clock_jitter :
  fst (update_versions [t0; t0 - 86400; t0 - 86400; t0 + 5]
         (ListsMetaValue (test_count 1)))
  = [t0; t0 + 1; t0 + 2; t0 + 5].
Proof. reflexivity. Qed.

(** *** The meta filter *)

(** C4.  For a meta value that parses, the meta filter drops the record if
    and only if the stored size is 0 or the stored ttl is not 0 and lies
    before the current time; every other record is kept.  The filter is a
    function of the clock and the value alone, it looks nothing up. *)
Theorem meta_filter_decision now value m :
  parse_meta value = Some m ->
  (MetaFilter now value = true <-> size m = 0 \/ (ttl m <> 0 /\ ttl m < now)) /\
  (MetaFilter now value = false <-> size m <> 0 /\ ~ (ttl m <> 0 /\ ttl m < now)).
Proof.
  intros Hp. unfold MetaFilter. rewrite Hp.
  assert (H : (size m =? 0) || expired (ttl m) now = true <->
              size m = 0 \/ (ttl m <> 0 /\ ttl m < now)).
  { rewrite orb_true_iff, Z.eqb_eq, expired_spec. tauto. }
  split; [done|].
  rewrite <- not_true_iff_false, H. destruct (decide (size m = 0)); tauto.
Qed.

Lemma meta_filter_decision_witness :
  parse_meta (encode_meta {| size := 1; version := 3; ttl := 500000; trailing := "" |})
    = Some {| size := 1; version := 3; ttl := 500000; trailing := "" |} /\
  MetaFilter 1000000
    (encode_meta {| size := 1; version := 3; ttl := 500000; trailing := "" |}) = true.
Proof.
  assert (Hp : parse_meta
                 (encode_meta {| size := 1; version := 3; ttl := 500000; trailing := "" |})
               = Some {| size := 1; version := 3; ttl := 500000; trailing := "" |})
    by (vm_compute; reflexivity).
  split; [exact Hp|].
  apply (proj1 (meta_filter_decision 1000000 _ _ Hp)).
  right. simpl. lia.
Defined.

(** *** The data filter *)

Lemma decision_spec st version_d now :
  decision st version_d now = true <->
  meta_exists st = false \/ (meta_ttl st <> 0 /\ meta_ttl st < now) \/
  version_d < meta_version st.
Proof.
  unfold decision. destruct (meta_exists st); simpl; [|tauto].
  pose proof (expired_spec (meta_ttl st) now) as He.
  destruct (expired (meta_ttl st) now).
  - split; [intros _|done]. right. left. by apply He.
  - destruct (Z.ltb_spec version_d (meta_version st)).
    + split; [intros _|done]. right. right. done.
    + split; [done|]. intros [?|[?|?]]; [done| |lia].
      apply He in H0. done.
Qed.

Lemma fresh_cache_ok db : cache_ok db fresh_filter.
Proof. done. Qed.

(** A call of the filter leaves the cache in agreement with the column
    family. *)
Lemma DataFilter_cache_ok db now st key :
  cache_ok db st -> cache_ok db (snd (DataFilter db now st key)).
Proof.
  intros Hok. unfold DataFilter.
  destruct (parse_data_key key) as [[[user_key version_d] index]|]; [|done].
  destruct (decide (last_user_key st = Some user_key)); [done|].
  destruct (db !! user_key) as [v|] eqn:Hv.
  - destruct (parse_meta v) as [m|] eqn:Hm; [|done].
    unfold cache_ok. simpl. rewrite Hv. by exists m.
  - unfold cache_ok. simpl. by rewrite Hv.
Qed.

Lemma run_filter_cache_ok db records :
  forall st, cache_ok db st -> cache_ok db (snd (run_filter db st records)).
Proof.
  induction records as [|[now key] rest IH]; intros st Hok; [done|].
  simpl. pose proof (DataFilter_cache_ok db now st key Hok) as H1.
  destruct (DataFilter db now st key) as [d st1]. apply IH in H1. simpl in H1.
  destruct (run_filter db st1 rest) as [ds st2]. done.
Qed.

(** The decision of a filter whose cache agrees with the column family. *)
Lemma DataFilter_decision db now st key user_key version_d index :
  cache_ok db st ->
  parse_data_key key = Some (user_key, version_d, index) ->
  match db !! user_key with
  | None => fst (DataFilter db now st key) = true
  | Some v =>
      forall m, parse_meta v = Some m ->
        (fst (DataFilter db now st key) = true <->
         (ttl m <> 0 /\ ttl m < now) \/ version_d < version m)
  end.
Proof.
  intros Hok Hkey. unfold DataFilter. rewrite Hkey.
  destruct (decide (last_user_key st = Some user_key)) as [Hhit|Hmiss].
  - unfold cache_ok in Hok. rewrite Hhit in Hok. simpl.
    destruct (db !! user_key) as [v|].
    + intros m Hm. destruct Hok as (m' & Hm' & Hex & Hver & Httl).
      assert (m' = m) as -> by congruence.
      rewrite decision_spec, Hex, Hver, Httl.
      split; [intros [?|?]; [done|tauto]|tauto].
    + apply decision_spec. by left.
  - destruct (db !! user_key) as [v|].
    + intros m Hm. rewrite Hm. simpl. rewrite decision_spec. simpl.
      split; [intros [?|?]; [done|tauto]|tauto].
    + simpl. apply decision_spec. by left.
Qed.

(** C3.  A filter instance works through the records of a compaction
    against one meta snapshot [db].  For a data record whose key parses to
    (user_key, version_d, index), met after any earlier records, the filter
    drops the record if and only if the meta record of user_key is absent,
    or its ttl is not 0 and lies before the current time, or version_d is
    less than its version.  A record of the meta's own version, the meta
    being present and not expired, is kept. *)
Theorem data_filter_decision db earlier now key user_key version_d index :
  parse_data_key key = Some (user_key, version_d, index) ->
  (forall v, db !! user_key = Some v -> is_Some (parse_meta v)) ->
  let st := snd (run_filter db fresh_filter earlier) in
  let meta := db !! user_key ≫= parse_meta in
  (fst (DataFilter db now st key) = true <->
     meta = None \/
     exists m, meta = Some m /\
               ((ttl m <> 0 /\ ttl m < now) \/ version_d < version m)) /\
  (forall m, meta = Some m -> version_d = version m ->
             ~ (ttl m <> 0 /\ ttl m < now) ->
             fst (DataFilter db now st key) = false).
Proof.
  intros Hkey Hwf st meta.
  assert (Hok : cache_ok db st) by apply run_filter_cache_ok, fresh_cache_ok.
  pose proof (DataFilter_decision db now st key user_key version_d index Hok Hkey) as H.
  subst meta. destruct (db !! user_key) as [v|] eqn:Hv; simpl.
  - destruct (Hwf v eq_refl) as [m Hm]. rewrite Hm. specialize (H m Hm). split.
    + rewrite H. split.
      * intros Hd. right. by exists m.
      * intros [?|(m' & [= <-] & Hd)]; done.
    + intros m' [= <-] Hver Hexp. apply not_true_iff_false. rewrite H. lia.
  - split; [|done]. split; [by left|done].
Qed.

(** Scenario S5 behind an earlier record of the same list: the meta has
    version 9, the record has version 8. *)
Lemma data_filter_decision_witness :
  parse_data_key (encode_data_key "K" 8 1) = Some ("K"%string, 8, 1) /\
  fst (DataFilter s5_db 1000000
         (snd (run_filter s5_db fresh_filter [(999999, encode_data_key "K" 9 0)]))
         (encode_data_key "K" 8 1)) = true.
Proof.
  assert (Hkey : parse_data_key (encode_data_key "K" 8 1) = Some ("K"%string, 8, 1))
    by (vm_compute; reflexivity).
  assert (Hwf : forall v, s5_db !! "K"%string = Some v -> is_Some (parse_meta v)).
  { intros v. unfold s5_db. rewrite lookup_singleton_eq. intros [= <-].
    vm_compute. eauto. }
  split; [exact Hkey|].
  apply (proj2 (proj1 (data_filter_decision s5_db [(999999, encode_data_key "K" 9 0)]
                         1000000 (encode_data_key "K" 8 1) "K" 8 1 Hkey Hwf))).
  right. eexists. split.
  - unfold s5_db. rewrite lookup_singleton_eq. vm_compute. reflexivity.
  - right. simpl. lia.
Defined.

(** *** The scenarios of [lists_filter_test.cc]

    The calls of the tests with the clock under control: [t0] is the time at
    which a value is built, the filter runs after the test's sleep. *)

(** MetaFilterTest: no timeout, empty list. *)
Example meta_filter_test_1 :
  MetaFilter (t0 + 1)
    (encode_meta (snd (UpdateVersion t0 (ListsMetaValue (test_count 0))))) = true.
Proof. vm_compute. reflexivity. Qed.

(** MetaFilterTest: no timeout, not an empty list. *)
Example meta_filter_test_2 :
  MetaFilter (t0 + 1)
    (encode_meta (snd (UpdateVersion t0 (ListsMetaValue (test_count 1))))) = false.
Proof. vm_compute. reflexivity. Qed.

(** MetaFilterTest: timeout set, not expired. *)
Example meta_filter_test_3 :
  MetaFilter (t0 + 1)
    (encode_meta (SetRelativeTimestamp t0 3
                    (snd (UpdateVersion t0 (ListsMetaValue (test_count 1)))))) = false.
Proof. vm_compute. reflexivity. Qed.

(** MetaFilterTest: timeout set, expired. *)
Example meta_filter_test_4 :
  MetaFilter (t0 + 2)
    (encode_meta (SetRelativeTimestamp t0 1
                    (snd (UpdateVersion t0 (ListsMetaValue (test_count 1)))))) = true.
Proof. vm_compute. reflexivity. Qed.

(** DataFilterTest: no timeout, the version is valid. *)
Example data_filter_test_1 :
  let '(ver, m) := UpdateVersion t0 (ListsMetaValue (test_count 1)) in
  let db : gmap string string := <[ "FILTER_TEST_KEY"%string := encode_meta m ]> ∅ in
  fst (DataFilter db t0 fresh_filter (encode_data_key "FILTER_TEST_KEY" ver 1)) = false.
Proof. vm_compute. reflexivity. Qed.

(** DataFilterTest: timeout set, not expired. *)
Example data_filter_test_2 :
  let '(ver, m) := UpdateVersion t0 (ListsMetaValue (test_count 1)) in
  let db : gmap string string :=
    <[ "FILTER_TEST_KEY"%string := encode_meta (SetRelativeTimestamp t0 1 m) ]> ∅ in
  fst (DataFilter db t0 fresh_filter (encode_data_key "FILTER_TEST_KEY" ver 1)) = false.
Proof. vm_compute. reflexivity. Qed.

(** DataFilterTest: timeout set, expired. *)
Example data_filter_test_3 :
  let '(ver, m) := UpdateVersion t0 (ListsMetaValue (test_count 1)) in
  let db : gmap string string :=
    <[ "FILTER_TEST_KEY"%string := encode_meta (SetRelativeTimestamp t0 1 m) ]> ∅ in
  fst (DataFilter db (t0 + 2) fresh_filter (encode_data_key "FILTER_TEST_KEY" ver 1)) = true.
Proof. vm_compute. reflexivity. Qed.

(** DataFilterTest: no timeout, the version is stale. *)
Example data_filter_test_4 :
  let '(ver, m) := UpdateVersion t0 (ListsMetaValue (test_count 1)) in
  let '(ver', m') := UpdateVersion t0 m in
  let db : gmap string string :=
    <[ "FILTER_TEST_KEY"%string := encode_meta m' ]>
      (<[ "FILTER_TEST_KEY"%string := encode_meta m ]> ∅) in
  ver' = ver + 1 /\
  fst (DataFilter db t0 fresh_filter (encode_data_key "FILTER_TEST_KEY" ver 1)) = true.
Proof. vm_compute. split; reflexivity. Qed.

(** DataFilterTest: the meta record has been deleted. *)
Example data_filter_test_5 :
  let '(ver, m) := UpdateVersion t0 (ListsMetaValue (test_count 1)) in
  let db : gmap string string :=
    delete "FILTER_TEST_KEY"%string (<[ "FILTER_TEST_KEY"%string := encode_meta m ]> ∅) in
  fst (DataFilter db t0 fresh_filter (encode_data_key "FILTER_TEST_KEY" ver 1)) = true.
Proof. vm_compute. reflexivity. Qed.

End ListsFacts.

(** ** More on the snapshot reader *)

Module ReaderMore.
Import Reader ReaderFacts.

(** What the second pass has fed to the digest when it ends on a [read]
    that returns 0: the file from the first position on, whatever the file
    does at other positions. *)
Lemma md5_loop_digest fuel f pos md5 md5' :
  0 <= pos ->
  md5_loop fuel f pos md5 = Some (0, md5') ->
  md5' = md5 ++ drop (Z.to_nat pos) (content f).
Proof.
  revert pos md5. induction fuel as [|fuel IH]; intros pos md5 Hpos; [done|].
  simpl. destruct (read f pos kMaxCopyBlockSize) as [b bs] eqn:E.
  apply read_spec in E.
  destruct (Z.ltb_spec 0 b) as [Hb|Hb].
  - destruct E as [(-> & _)|(_ & Hbs & -> & _)]; [lia|].
    intros H. apply IH in H; [|lia]. rewrite H. unfold MD5.update.
    rewrite <- app_assoc. f_equal.
    replace (Z.to_nat (pos + Z.of_nat (length bs)))
      with (Z.to_nat pos + length bs)%nat by lia.
    rewrite <- drop_drop.
    rewrite <- (take_drop (length bs) (drop (Z.to_nat pos) (content f))) at 2.
    f_equal. rewrite Hbs at 2. by rewrite take_length_take.
  - intros [= -> <-].
    destruct E as [(? & _)|(_ & Hbs & Hlen & _)]; [lia|].
    assert (Hnil : bs = []) by (apply length_zero_iff_nil; lia).
    rewrite Hnil in Hbs. rewrite kMax_value in Hbs.
    destruct (drop (Z.to_nat pos) (content f)) as [|x d]; [by rewrite app_nil_r|].
    replace (Z.to_nat 1048576) with (S (Z.to_nat 1048575)) in Hbs by lia.
    done.
Qed.

(** What the first loop has stored when it ends on a [pread] that returns 0:
    the requested range, as far as the file goes. *)
Lemma reaches_range f count s s' :
  Z.of_nat (length (content f)) < 2 ^ 64 -> count < 2 ^ 64 ->
  counts count s -> 0 <= read_offset s ->
  reaches f s s' ->
  fst (pread f (read_count s') (read_offset s')) = 0 ->
  buffer s' = buffer s ++ take (Z.to_nat (left_read_count s))
                               (drop (Z.to_nat (read_offset s)) (content f)).
Proof.
  intros Hlen Hc Hs Hoff Hr. induction Hr as [s|s s1 s2 Hstep Hr IH]; intros Hend.
  - destruct (pread f (read_count s) (read_offset s)) as [b bs] eqn:E.
    simpl in Hend. subst b.
    apply pread_spec in E as [(? & _)|(_ & Hbs & Hb & _)]; [lia|].
    assert (bs = []) as -> by (apply length_zero_iff_nil; lia).
    destruct Hs as ([[? ?] ?] & Hrc & _). rewrite kMax_value in Hrc.
    destruct (drop (Z.to_nat (read_offset s)) (content f)) as [|x d].
    + by rewrite take_nil, app_nil_r.
    + destruct (Z.to_nat (read_count s)) eqn:Hn; [|done].
      replace (Z.to_nat (left_read_count s)) with 0%nat by lia.
      by rewrite app_nil_r.
  - assert (Hs1 : counts count s1).
    { eapply reaches_counts; [done|apply Hs|]. eapply reaches_next; [done|constructor]. }
    pose proof Hs as (Hb & _).
    apply (pread_step_next f s s1 Hb) in Hstep
      as (bs & E & Hpos & Hle & Hbuf & _ & Hoff1 & Hleft & _ & _).
    apply pread_spec in E as [(? & _)|(_ & Hbs & _ & _)]; [lia|].
    destruct Hb as [[? ?] ?].
    assert (Hfit : Z.of_nat (length bs) <= Z.of_nat (length (content f)) - read_offset s).
    { assert (length bs = Z.to_nat (read_count s) `min`
                (length (content f) - Z.to_nat (read_offset s)))%nat
        by (rewrite Hbs at 1; by rewrite length_take, length_drop).
      lia. }
    rewrite to_size_t_id in Hoff1 by (unfold is_size_t; lia).
    rewrite IH by (done || lia). rewrite Hbuf, <- app_assoc. f_equal.
    rewrite Hoff1, Hleft.
    replace (Z.to_nat (read_offset s + Z.of_nat (length bs)))
      with (Z.to_nat (read_offset s) + length bs)%nat by lia.
    replace (Z.to_nat (left_read_count s - Z.of_nat (length bs)))
      with (Z.to_nat (left_read_count s) - length bs)%nat by lia.
    rewrite <- drop_drop. rewrite Hbs. apply take_chunks. lia.
Qed.

(** A call that succeeds has delivered the range and the digest of the
    file. *)
Lemma ReadDumpFile_ok_range fs filepath f offset count o' :
  fs !! filepath = Some f ->
  is_size_t count -> 0 <= offset ->
  Z.of_nat (length (content f)) < 2 ^ 64 ->
  ReadDumpFile fs filepath offset count fresh_outs = Some (OK, o') ->
  data o' = take (Z.to_nat count) (drop (Z.to_nat offset) (content f)) /\
  nread o' = Z.of_nat (length (data o')) /\
  checksum o' = Md5Hex (content f).
Proof.
  intros Hf Hc Hoff Hlen.
  destruct (ReadDumpFile_run fs filepath f offset count fresh_outs Hf Hc)
    as (b & s & b' & md5 & pos & Hr & Hret & Hb & _ & _ & Hb' & Hmd5 & ->).
  destruct Hb as [-> | ->]; destruct Hb' as [-> | ->]; simpl; try done.
  intros [= <-]. simpl.
  pose proof (start_counts offset count Hc) as Hs0.
  assert (Hs : counts count s).
  { eapply reaches_counts; [apply Hc|apply Hs0|done]. }
  rewrite (reaches_range f count _ s Hlen (proj2 Hc) Hs0 Hoff Hr Hret).
  apply md5_loop_digest in Hmd5; [|lia]. rewrite Hmd5.
  destruct Hs as (_ & _ & _ & _ & Hn).
  rewrite (reaches_range f count _ s Hlen (proj2 Hc) Hs0 Hoff Hr Hret) in Hn.
  simpl in *. done.
Qed.



(** X3.  A call that succeeds on a file whose size fits [size_t] has stored
    exactly the bytes of the file from [offset] on, [count] of them or as
    many as the file has left, reports their number, and returns the digest
    of the whole file, not of the range. *)
Theorem successful_read_delivers_range fs filepath f offset count o' :
  fs !! filepath = Some f ->
  is_size_t count -> 0 <= offset ->
  Z.of_nat (length (content f)) < 2 ^ 64 ->
  ReadDumpFile fs filepath offset count fresh_outs = Some (OK, o') ->
  data o' = take (Z.to_nat count) (drop (Z.to_nat offset) (content f)) /\
  nread o' = Z.of_nat (length (data o')) /\
  checksum o' = Md5Hex (content f).
Proof. apply ReadDumpFile_ok_range. Qed.

Lemma successful_read_delivers_range_witness :
  ["b"; "c"; "d"]%byte = take (Z.to_nat 3) (drop (Z.to_nat 1) five_bytes) /\
  3 = Z.of_nat (length ["b"; "c"; "d"]%byte) /\
  Md5Hex five_bytes = Md5Hex five_bytes.
Proof.
  apply (successful_read_delivers_range (disk small_server) "dump/00001.sst"
           (plain_file five_bytes) 1 3
           {| data := ["b"; "c"; "d"]%byte; nread := 3; checksum := Md5Hex five_bytes |}).
  - apply lookup_singleton_eq.
  - unfold is_size_t. lia.
  - lia.
  - simpl. lia.
  - vm_compute. reflexivity.
Defined.

(** X5.  Two successful calls, the second at the offset advanced by what
    the first has delivered, deliver together what the file holds from the
    first offset on, up to the sum of the two counts: the chunks join
    without gap or overlap. *)
Theorem successive_reads_assemble fs filepath f offset c1 c2 o1 o2 :
  fs !! filepath = Some f ->
  is_size_t c1 -> is_size_t c2 -> 0 <= offset ->
  Z.of_nat (length (content f)) < 2 ^ 64 ->
  ReadDumpFile fs filepath offset c1 fresh_outs = Some (OK, o1) ->
  ReadDumpFile fs filepath (offset + nread o1) c2 fresh_outs = Some (OK, o2) ->
  data o1 ++ data o2 =
    take (Z.to_nat c1 + Z.to_nat c2) (drop (Z.to_nat offset) (content f)).
Proof.
  intros Hf Hc1 Hc2 Hoff Hlen H1 H2.
  apply (ReadDumpFile_ok_range fs filepath f offset c1 o1 Hf Hc1 Hoff Hlen)
    in H1 as (Hd1 & Hn1 & _).
  apply (ReadDumpFile_ok_range fs filepath f _ c2 o2 Hf Hc2) in H2 as (Hd2 & _ & _);
    [|lia|done].
  rewrite Hd2, Hn1.
  replace (Z.to_nat (offset + Z.of_nat (length (data o1))))
    with (Z.to_nat offset + length (data o1))%nat by lia.
  rewrite <- drop_drop. rewrite Hd1.
  set (d := drop (Z.to_nat offset) (content f)).
  rewrite <- (take_length_take (Z.to_nat c1) d) at 1.
  rewrite take_take_drop, length_take.
  destruct (Nat.le_gt_cases (Z.to_nat c1) (length d)).
  - by rewrite Nat.min_l.
  - rewrite !take_ge; [done|lia|lia].
Qed.

Lemma successive_reads_assemble_witness :
  ["b"; "c"]%byte ++ ["d"; "e"]%byte =
    take (Z.to_nat 2 + Z.to_nat 5) (drop (Z.to_nat 1) five_bytes).
Proof.
  apply (successive_reads_assemble (disk small_server) "dump/00001.sst"
           (plain_file five_bytes) 1 2 5
           {| data := ["b"; "c"]%byte; nread := 2; checksum := Md5Hex five_bytes |}
           {| data := ["d"; "e"]%byte; nread := 2; checksum := Md5Hex five_bytes |}).
  - apply lookup_singleton_eq.
  - unfold is_size_t. lia.
  - unfold is_size_t. lia.
  - lia.
  - simpl. lia.
  - vm_compute. reflexivity.
  - vm_compute. reflexivity.
Defined.

(** Each [pread] of the loop is made at the requested offset advanced by
    what has been read so far. *)
Lemma reaches_offset f count s s' :
  count < 2 ^ 64 -> counts count s -> reaches f s s' ->
  read_offset s' = to_size_t (read_offset s + (bytes_read s' - bytes_read s)) \/
  s' = s.
Proof.
  intros Hc Hs Hr. induction Hr as [s|s s1 s2 Hstep Hr IH]; [by right|].
  left.
  assert (Hs1 : counts count s1).
  { eapply reaches_counts; [done|apply Hs|]. eapply reaches_next; [done|constructor]. }
  pose proof Hs as (Hb & _ & Hbr & Hsum & _).
  apply (pread_step_next f s s1 Hb) in Hstep
    as (bs & _ & Hpos & Hle & _ & Hbr1 & Hoff1 & _ & _ & _).
  destruct Hb as [[? ?] ?].
  rewrite to_size_t_id in Hbr1 by (unfold is_size_t; lia).
  destruct (IH Hs1) as [Hro| ->].
  - rewrite Hro, Hoff1. unfold to_size_t. rewrite Zplus_mod_idemp_l.
    f_equal. lia.
  - rewrite Hoff1. f_equal. lia.
Qed.

(** The size of the buffer wraps around at the largest count. *)
Lemma buffer_size_wraps : buffer_size (2 ^ 64 - 1) = 0.
Proof. reflexivity. Qed.

(** X9.  For a count below 2^64 - 1 the handler's buffer has
    [buffer_size count] = [count + 1] bytes, and whenever the first loop
    calls [pread], what the buffer already holds and what the call asks for
    stay below that size: no call stores past the buffer.  The buffer holds
    exactly [bytes_read] bytes, and the call is made at the requested offset
    advanced by [bytes_read].  (At count = 2^64 - 1 the size wraps to 0,
    lemma [buffer_size_wraps], and nothing of this holds.) *)
Theorem pread_stays_within_buffer f offset count s :
  0 <= count < 2 ^ 64 - 1 -> is_size_t offset ->
  reaches f (start offset count fresh_outs) s ->
  buffer_size count = count + 1 /\
  Z.of_nat (length (buffer s)) + read_count s < buffer_size count /\
  Z.of_nat (length (buffer s)) = bytes_read s /\
  read_offset s = to_size_t (offset + bytes_read s).
Proof.
  intros Hfit Ho Hr.
  assert (Hc : is_size_t count) by (unfold is_size_t; lia).
  pose proof (start_counts offset count Hc) as Hs0.
  assert (Hs : counts count s).
  { eapply reaches_counts; [apply Hc|apply Hs0|done]. }
  pose proof Hs as ([[? ?] ?] & _ & ? & ? & ?).
  rewrite RsyncFacts.buffer_size_fits by done.
  split; [done|]. split; [lia|]. split; [done|].
  destruct (reaches_offset f count _ s (proj2 Hc) Hs0 Hr) as [-> | ->]; simpl.
  - f_equal. lia.
  - rewrite Z.add_0_r. by rewrite to_size_t_id.
Qed.

Lemma pread_stays_within_buffer_witness :
  buffer_size 10 = 10 + 1 /\
  Z.of_nat (length ["a"; "b"; "c"]%byte) + 7 < buffer_size 10 /\
  Z.of_nat (length ["a"; "b"; "c"]%byte) = 3 /\
  3 = to_size_t (0 + 3).
Proof.
  apply (pread_stays_within_buffer flaky_file 0 10
           {| buffer := ["a"; "b"; "c"]%byte; bytes_read := 3; read_offset := 3;
              read_count := 7; left_read_count := 7 |}).
  - lia.
  - unfold is_size_t. lia.
  - eapply reaches_next; [vm_compute; reflexivity|apply reaches_here].
Defined.

(** *** Regular files *)




End ReaderMore.

(** ** More on the server *)

Module ServerMore.
Import Reader ReaderFacts.

Lemma error_only_from_failure_witness :
  is_io_error (IOError "unable to read from dump/00001.sst") = true /\
  io_failure (disk flaky_server) "dump/00001.sst" 0 10 fresh_outs.
Proof.
  apply (RsyncFacts.error_only_from_failure (disk flaky_server) "dump/00001.sst" 0 10
           fresh_outs _
           {| data := ["a"; "b"; "c"]%byte; nread := 3; checksum := NoChecksum |}).
  - unfold is_size_t. lia.
  - exact RsyncFacts.flaky_read.
  - discriminate.
Defined.


(** What [RsyncWriteResp] does to a connection: it appends the response, or,
    when serialising or writing fails, marks the connection for closing. *)
Lemma RsyncWriteResp_cases r conn :
  write_ok (RsyncWriteResp r conn) = write_ok conn /\
  ((write_ok conn = false /\ frames (RsyncWriteResp r conn) = frames conn /\
    closing (RsyncWriteResp r conn) = true) \/
   (write_ok conn = true /\ frames (RsyncWriteResp r conn) = frames conn ++ [r] /\
    closing (RsyncWriteResp r conn) = closing conn)).
Proof. unfold RsyncWriteResp. destruct (write_ok conn); simpl; auto. Qed.



(** X6.  The meta handler writes at most one response and never one of code
    [kErr]: either it leaves the connection as it was (the request is
    dropped), or it tries to write one response of code [kOk] and type
    [kRsyncMeta] that names the request's database and slot and carries the
    file list and the snapshot UUID of [GetDumpMeta].  Frames written
    earlier stay as they are, and the connection is marked for closing only
    when the write fails. *)
Theorem meta_handler_writes_at_most_one srv req conn :
  HandleMetaRsyncRequest srv req conn = conn \/
  exists r,
    HandleMetaRsyncRequest srv req conn = RsyncWriteResp r conn /\
    code r = kOk /\ type r = kRsyncMeta /\
    db_name r = req_db_name req /\ slot_id r = req_slot_id req /\
    meta_resp r = Some (fst (GetDumpMeta srv (req_db_name req) (req_slot_id req))) /\
    snapshot_uuid r = snd (GetDumpMeta srv (req_db_name req) (req_slot_id req)) /\
    file_resp r = None /\
    (write_ok conn = true ->
     frames (HandleMetaRsyncRequest srv req conn) = frames conn ++ [r] /\
     closing (HandleMetaRsyncRequest srv req conn) = closing conn) /\
    (write_ok conn = false ->
     frames (HandleMetaRsyncRequest srv req conn) = frames conn /\
     closing (HandleMetaRsyncRequest srv req conn) = true).
Proof.
  unfold HandleMetaRsyncRequest.
  destruct (GetDBSlotById srv (req_db_name req) (req_slot_id req)) as [slot|];
    [|by left].
  destruct (IsBgSaving slot); [by left|]. right.
  destruct (GetDumpMeta srv (req_db_name req) (req_slot_id req)) as [fns uuid].
  eexists. split; [reflexivity|]. simpl. do 7 (split; [done|]).
  split; intros Hw; unfold RsyncWriteResp; rewrite Hw; done.
Qed.



(** X8.  [DealMessage] only schedules: it never writes to the connection or
    marks it for closing, it keeps the tasks already queued in their order
    and adds at most one behind them, and it returns -1 exactly when the
    frame does not parse, 0 otherwise.  A task is added exactly for a
    request of type [kRsyncMeta] or [kRsyncFile], and it is the task of that
    request's handler. *)
Theorem DealMessage_only_schedules parsed c :
  pb_conn (snd (DealMessage parsed c)) = pb_conn c /\
  (fst (DealMessage parsed c) = -1 <-> parsed = None) /\
  (fst (DealMessage parsed c) = 0 <-> parsed <> None) /\
  (work_queue (snd (DealMessage parsed c)) = work_queue c \/
   exists req,
     parsed = Some req /\
     ((req_type req = kRsyncMeta /\
       work_queue (snd (DealMessage parsed c)) = work_queue c ++ [MetaTask req]) \/
      (req_type req = kRsyncFile /\
       work_queue (snd (DealMessage parsed c)) = work_queue c ++ [FileTask req]))) /\
  (work_queue (snd (DealMessage parsed c)) = work_queue c <->
   forall req, parsed = Some req ->
     req_type req <> kRsyncMeta /\ req_type req <> kRsyncFile).
Proof.
  assert (Hne : forall (l : list Task) x, l ++ [x] = l -> False).
  { intros l x H. apply (f_equal length) in H. rewrite length_app in H.
    simpl in H. lia. }
  unfold DealMessage. destruct parsed as [req|]; simpl.
  - destruct (req_type req) eqn:Ht; simpl.
    + split; [done|]. split; [done|]. split; [done|]. split.
      * right. exists req. split; [done|]. by left.
      * split; [intros H; by apply Hne in H|].
        intros H. destruct (H req eq_refl). congruence.
    + split; [done|]. split; [done|]. split; [done|]. split.
      * right. exists req. split; [done|]. by right.
      * split; [intros H; by apply Hne in H|].
        intros H. destruct (H req eq_refl). congruence.
    + split; [done|]. split; [done|]. split; [done|]. split; [by left|].
      split; [|done]. intros _ req0 [= <-]. rewrite Ht. done.
  - split; [done|]. split; [done|]. split; [|split; [by left|done]].
    split; [lia|done].
Qed.

(** *** Out-parameters that are not fresh *)






(** *** Starting the server *)

(** X11.  [RsyncServer::Start] never returns a failure code: it returns
    only when the server thread and the worker pool have both started, and
    then it returns [kSuccess]; a failure of either ends the process through
    [LOG(FATAL)], and after a failed thread start the pool's result plays
    no part. *)
Theorem Start_returns_only_success kSuccess kCreateThreadError thread_res pool_res :
  (forall res,
      RsyncServer_Start kSuccess kCreateThreadError thread_res pool_res
        = StartReturns res <->
      thread_res = kSuccess /\ pool_res = kSuccess /\ res = kSuccess) /\
  (thread_res <> kSuccess ->
   forall pool_res',
     RsyncServer_Start kSuccess kCreateThreadError thread_res pool_res' =
     StartFatal "Start rsync Server Thread Error: " thread_res "").
Proof.
  unfold RsyncServer_Start. split.
  - intros res.
    destruct (Z.eqb_spec thread_res kSuccess) as [->|Ht]; simpl.
    + destruct (Z.eqb_spec pool_res kSuccess) as [->|Hp]; simpl.
      * split; [intros [= <-]; done|intros (_ & _ & ->); done].
      * split; [done|]. intros (_ & ? & _). done.
    + split; [done|]. intros (? & _). done.
  - intros Ht pool_res'. destruct (Z.eqb_spec thread_res kSuccess); done.
Qed.

Lemma Start_returns_only_success_witness :
  RsyncServer_Start 0 1 1 0 = StartFatal "Start rsync Server Thread Error: " 1 "".
Proof.
  apply (proj2 (Start_returns_only_success 0 1 1 0)). lia.
Defined.

End ServerMore.
